(** * Experience-replay buffers: a shallow embedding of [replay_buffer.py]

    The three classes of the module ([ReplayBuffer], [PrioritizedReplayBuffer]
    and [PrioritizedReplayBuffer2]) are embedded method by method over a small
    model of the Python run time they use: exceptions, [collections.deque],
    the module-level generators of [random] and [numpy.random], and binary64
    floats (the kernel's primitive floats).  The specification calls the
    three classes UniformBuffer, StratifiedBuffer and WeightedStratifiedBuffer.
    The helpers of [preprocess.py] (the word index and the state histories)
    are embedded after them. *)

From Stdlib Require Import ZArith Lia Bool String.
From Stdlib Require Import Floats.PrimFloat Floats.FloatOps Floats.SpecFloat.
From stdpp Require Import base tactics option list gmap strings.

Local Open Scope Z_scope.

(** ** Exceptions and the interpreter state *)

(** The built-in exceptions the modelled code can raise. *)
Inductive exn : Type :=
  | IndexError
  | ValueError
  | TypeError
  | AttributeError
  | OverflowError.

(** The outcome of evaluating an expression or a call. *)
Inductive result (X : Type) : Type :=
  | Ok (x : X)
  | Raise (e : exn).
Arguments Ok {X} x.
Arguments Raise {X} e.

(** A pseudo-random generator: the sequence of raw numbers it will produce
    and how many of them were consumed.  Any generator is of this form, so a
    statement about every [rng] is a statement about every sequence of draws. *)
Record rng : Type := mkRng { tape : nat -> nat; cursor : nat }.

(** [int(random() * m)]: the next raw number scaled into [0, m). *)
Definition randbelow (g : rng) (m : nat) : nat * rng :=
  ((tape g (cursor g) mod m)%nat, mkRng (tape g) (Datatypes.S (cursor g))).

(** The two module-level generators: [random]'s and [numpy.random]'s. *)
Record Interp : Type := mkInterp { py_random : rng; np_random : rng }.

(** What a method call can read and write: the object it is called on and
    the interpreter's generators. *)
Record World (Obj : Type) : Type := mkWorld { self : Obj; interp : Interp }.
Arguments mkWorld {Obj} self interp.
Arguments self {Obj} w.
Arguments interp {Obj} w.

(** Computations that mutate the world and may raise.  A raised exception
    keeps the world as it was when it was raised. *)
Definition M (Obj X : Type) : Type := World Obj -> result X * World Obj.

#[export] Instance M_ret {Obj} : MRet (M Obj) :=
  fun X (x : X) w => (Ok x, w).

#[export] Instance M_bind {Obj} : MBind (M Obj) :=
  fun X Y (f : X -> M Obj Y) (m : M Obj X) w =>
    match m w with
    | (Ok x, w') => f x w'
    | (Raise e, w') => (Raise e, w')
    end.

Definition raise {Obj X} (e : exn) : M Obj X := fun w => (Raise e, w).

Definition get_self {Obj} : M Obj Obj := fun w => (Ok (self w), w).

Definition set_self {Obj} (o : Obj) : M Obj unit :=
  fun w => (Ok tt, mkWorld o (interp w)).

(** Lifts a pure outcome. *)
Definition lift {Obj X} (r : result X) : M Obj X := fun w => (r, w).

(** Runs a computation on [random]'s generator. *)
Definition with_py_random {Obj X} (f : rng -> result X * rng) : M Obj X :=
  fun w =>
    let '(r, g) := f (py_random (interp w)) in
    (r, mkWorld (self w) (mkInterp g (np_random (interp w)))).

(** Runs a computation on [numpy.random]'s generator. *)
Definition with_np_random {Obj X} (f : rng -> result X * rng) : M Obj X :=
  fun w =>
    let '(r, g) := f (np_random (interp w)) in
    (r, mkWorld (self w) (mkInterp (py_random (interp w)) g)).

(** ** Floats *)

(** [float(z)] for a Python integer: rounded to nearest even; an integer
    beyond the binary64 range raises [OverflowError]. *)
Definition float_of_int (z : Z) : result float :=
  let f := SF2Prim (binary_normalize prec emax z 0 false) in
  if PrimFloat.eqb (PrimFloat.abs f) infinity then Raise OverflowError else Ok f.

(** [int(f)]: truncation toward zero; [ValueError] on NaN and
    [OverflowError] on an infinity. *)
Definition int_of_float (f : float) : result Z :=
  match Prim2SF f with
  | S754_zero _ => Ok 0
  | S754_finite s m e =>
      let a := if 0 <=? e then Z.shiftl (Z.pos m) e else Z.shiftr (Z.pos m) (- e) in
      Ok (if s then - a else a)
  | S754_infinity _ => Raise OverflowError
  | S754_nan => Raise ValueError
  end.

(** [z * f] for an integer [z] and a float [f]. *)
Definition int_mul_float (z : Z) (f : float) : result float :=
  match float_of_int z with
  | Ok x => Ok (PrimFloat.mul x f)
  | Raise e => Raise e
  end.

(** ** [collections.deque] *)

Section Deque.
Context {T : Type}.

(** A deque: its items, left to right, and its [maxlen] ([None] when
    unbounded). *)
Record deque : Type := mkDeque { items : list T; maxlen : option Z }.

(** [deque()] and [deque([], maxlen)]; a negative [maxlen] raises. *)
Definition deque_new (bound : option Z) : result deque :=
  match bound with
  | None => Ok (mkDeque [] None)
  | Some n => if n <? 0 then Raise ValueError else Ok (mkDeque [] (Some n))
  end.

Definition deque_len (d : deque) : Z := Z.of_nat (length (items d)).

(** [d.append(x)]: the item goes to the right end, and a bounded deque
    that now exceeds its [maxlen] drops its leftmost item. *)
Definition deque_append (d : deque) (x : T) : deque :=
  let l := items d ++ [x] in
  match maxlen d with
  | Some n => if n <? Z.of_nat (length l) then mkDeque (drop 1 l) (maxlen d)
              else mkDeque l (maxlen d)
  | None => mkDeque l None
  end.

(** [d.popleft()]: [IndexError] on an empty deque. *)
Definition deque_popleft (d : deque) : result (T * deque) :=
  match items d with
  | [] => Raise IndexError
  | x :: l => Ok (x, mkDeque l (maxlen d))
  end.

Definition deque_clear (d : deque) : deque := mkDeque [] (maxlen d).

(** A subscript: an integer or a slice [lo:hi]. *)
Inductive subscript : Type :=
  | KInt (i : Z)
  | KSlice (lo hi : option Z).

(** What a subscription evaluates to. *)
Inductive subscripted : Type :=
  | One (x : T)
  | Many (l : list T).

(** [d[key]]: a deque is indexed by integers only (negative ones count
    from the right); a slice raises [TypeError]. *)
Definition deque_getitem (d : deque) (key : subscript) : result subscripted :=
  match key with
  | KInt i =>
      let n := deque_len d in
      let j := if i <? 0 then i + n else i in
      if (j <? 0) || (n <=? j) then Raise IndexError
      else match items d !! Z.to_nat j with
           | Some x => Ok (One x)
           | None => Raise IndexError
           end
  | KSlice _ _ => Raise TypeError
  end.
End Deque.
Arguments deque T : clear implicits.
Arguments subscripted T : clear implicits.

(** ** The library routines the buffers call *)

(** What the model takes from the libraries without embedding it: how
    [random.seed] turns a seed into a generator, whether the numpy release
    in use accepts [choice(0, 0, replace=False)] (older releases raise
    [ValueError] for every population that is not positive, newer ones let an
    empty draw through), and numpy's weighted draw without replacement
    [choice(a, size, False, p)]. *)
Class Libraries : Type := {
  seed_tape : Z -> nat -> nat;
  choice_empty_ok : bool;
  choice_weighted : Z -> Z -> list float -> rng -> result (list nat) * rng
}.

(** [random.seed(s)]: the module-level generator restarts from the seed. *)
Definition seed_random `{Libraries} {Obj} (s : Z) : M Obj unit :=
  fun w => (Ok tt, mkWorld (self w) (mkInterp (mkRng (seed_tape s) 0%nat) (np_random (interp w)))).

Section Sampling.
Context {T : Type}.

(** The selection loop of [random.sample]:
    [for i in xrange(k): j = int(random() * (n-i)); result[i] = pool[j];
    pool[j] = pool[n-i-1]].  [steps] counts the iterations left. *)
Fixpoint sample_loop (steps i n : nat) (pool : list T) (g : rng)
  : result (list T) * rng :=
  match steps with
  | O => (Ok [], g)
  | Datatypes.S steps' =>
      let '(j, g') := randbelow g (n - i) in
      match pool !! j, pool !! (n - i - 1)%nat with
      | Some x, Some y =>
          match sample_loop steps' (Datatypes.S i) n (<[j := y]> pool) g' with
          | (Ok r, g'') => (Ok (x :: r), g'')
          | (Raise e, g'') => (Raise e, g'')
          end
      | _, _ => (Raise IndexError, g')
      end
  end.

(** [random.sample(population, k)] on a generator: [ValueError] unless
    [0 <= k <= len(population)], then [k] items at distinct positions. *)
Definition sample_on (population : list T) (k : Z) (g : rng)
  : result (list T) * rng :=
  let n := length population in
  if (0 <=? k) && (k <=? Z.of_nat n)
  then sample_loop (Z.to_nat k) 0 n population g
  else (Raise ValueError, g).

Definition random_sample {Obj} (population : deque T) (k : Z) : M Obj (list T) :=
  with_py_random (sample_on (items population) k).

(** numpy's in-place shuffle:
    [for i in reversed(range(1, n)): j = rk_interval(i); x[i], x[j] = x[j], x[i]].
    The argument is the current [i]. *)
Fixpoint shuffle_loop (i : nat) (x : list T) (g : rng) : list T * rng :=
  match i with
  | O => (x, g)
  | Datatypes.S i' =>
      let '(j, g') := randbelow g (Datatypes.S i) in
      match x !! i, x !! j with
      | Some xi, Some xj => shuffle_loop i' (<[j := xi]> (<[i := xj]> x)) g'
      | _, _ => shuffle_loop i' x g'
      end
  end.

(** [np.array(d)[idx]]: the items at the given positions, in that order. *)
Fixpoint take_indices (l : list T) (idx : list nat) : result (list T) :=
  match idx with
  | [] => Ok []
  | i :: idx' =>
      match l !! i, take_indices l idx' with
      | Some x, Ok r => Ok (x :: r)
      | None, _ => Raise IndexError
      | _, Raise e => Raise e
      end
  end.
End Sampling.

(** [np.random.permutation(n)]: [arange(n)] shuffled. *)
Definition permutation (n : nat) (g : rng) : list nat * rng :=
  shuffle_loop (n - 1) (seq 0 n) g.

(** [np.random.choice(a, size, False, p)] for an integer [a]: the checks on
    the population, then either the weighted draw or the first [size]
    entries of a permutation of [range(a)].  A negative [size] fails when the
    result is shaped, after the permutation was drawn. *)
Definition choice_on `{Libraries} (a size : Z) (p : option (list float)) (g : rng)
  : result (list nat) * rng :=
  if (a <=? 0) && negb (choice_empty_ok && (size =? 0)) then (Raise ValueError, g)
  else if a <? size then (Raise ValueError, g)
  else match p with
       | Some weights => choice_weighted a size weights g
       | None =>
           let '(perm, g') := permutation (Z.to_nat a) g in
           if size <? 0 then (Raise ValueError, g')
           else (Ok (take (Z.to_nat size) perm), g')
       end.

Definition np_random_choice `{Libraries} {Obj} (a size : Z) (p : option (list float))
  : M Obj (list nat) :=
  with_np_random (choice_on a size p).

(** ** [exp] and [softmax] on binary64 *)

(** The Taylor polynomial of [exp] of degree 20, by Horner's rule. *)
Definition exp_taylor (y : float) : float :=
  foldr (fun k acc => (1 + y * acc / k)%float) 1%float
        (map (fun k => SF2Prim (binary_normalize prec emax (Z.of_nat k) 0 false)) (seq 1 20)).

(** Halves [x] until its magnitude is at most one half, counting the halvings. *)
Fixpoint halve (fuel : nat) (x : float) (k : nat) : float * nat :=
  if PrimFloat.leb (PrimFloat.abs x) 0.5%float then (x, k)
  else match fuel with
       | O => (x, k)
       | Datatypes.S fuel' => halve fuel' (x / 2)%float (Datatypes.S k)
       end.

Fixpoint square_times (k : nat) (x : float) : float :=
  match k with
  | O => x
  | Datatypes.S k' => square_times k' (x * x)%float
  end.

(** [np.exp] on one binary64 value, by argument halving and repeated
    squaring.  Like the library routine it is exact at 0, overflows to
    [infinity] and underflows to 0; in between it agrees with the library up
    to rounding. *)
Definition np_exp (x : float) : float :=
  if PrimFloat.eqb x infinity then infinity
  else if PrimFloat.eqb x neg_infinity then 0%float
  else let '(y, k) := halve 1100 x 0 in square_times k (exp_taylor y).

(** [np.sum] of a one-dimensional array, summed left to right. *)
Definition np_sum (l : list float) : float :=
  fold_left PrimFloat.add l 0%float.

(** [softmax(y)]: [e = np.exp(np.array(y)); return e / np.sum(e)]. *)
Definition softmax (y : list float) : list float :=
  let e := map np_exp y in
  map (fun x => (x / np_sum e)%float) e.

(** The maximum of an array ([neg_infinity] for an empty one). *)
Definition float_max (l : list float) : float :=
  fold_left (fun m x => if PrimFloat.ltb m x then x else m) l neg_infinity.

(** The specification's softmax, following its words:
    [w_i = exp(r_i - max_r) / sum_j exp(r_j - max_r)]. *)
Definition softmax_stabilized (y : list float) : list float :=
  let max_r := float_max y in
  let e := map (fun r => np_exp (r - max_r)%float) y in
  map (fun x => (x / np_sum e)%float) e.

(** ** Transitions and batches *)

Section Transitions.
Context {St Act : Type}.

(** One experience [(s, a, r, t, s2)]. *)
Record Transition : Type := mkTransition {
  state : St;
  action : Act;
  reward : float;
  terminal : bool;
  next_state : St
}.

(** The five parallel sequences [s_batch, a_batch, r_batch, t_batch, s2_batch]. *)
Record Batch : Type := mkBatch {
  s_batch : list St;
  a_batch : list Act;
  r_batch : list float;
  t_batch : list bool;
  s2_batch : list St
}.

(** [np.array([_[0] for _ in batch]), ..., np.array([_[4] for _ in batch])]. *)
Definition columns (batch : list Transition) : Batch :=
  mkBatch (map state batch) (map action batch) (map reward batch)
          (map terminal batch) (map next_state batch).

(** What a method call returns. *)
Inductive value : Type :=
  | VNone
  | VInt (z : Z)
  | VBatch (b : Batch).
End Transitions.
Arguments Transition St Act : clear implicits.
Arguments Batch St Act : clear implicits.
Arguments value St Act : clear implicits.

(** ** [class ReplayBuffer] (the specification's UniformBuffer) *)

Module ReplayBuffer.
Section Methods.
Context `{Libraries} {St Act : Type}.

(** The instance attributes set by [__init__]. *)
Record t : Type := mk {
  buffer_size : Z;
  count : Z;
  buffer : deque (Transition St Act)
}.

(** [__init__(self, buffer_size, random_seed=123)], run in an interpreter
    whose generators are in the state [i]. *)
Definition init (buffer_size random_seed : Z) (i : Interp) : result (World t) :=
  match deque_new None with
  | Ok d => Ok (snd (seed_random random_seed (mkWorld (mk buffer_size 0 d) i)))
  | Raise e => Raise e
  end.

Definition set_count (c : Z) : M t unit :=
  o ← get_self; set_self (mk (buffer_size o) c (buffer o)).

Definition set_buffer (d : deque (Transition St Act)) : M t unit :=
  o ← get_self; set_self (mk (buffer_size o) (count o) d).

(** [self.buffer.append(x)]. *)
Definition buffer_append (x : Transition St Act) : M t unit :=
  o ← get_self; set_buffer (deque_append (buffer o) x).

(** [self.buffer.popleft()]. *)
Definition buffer_popleft : M t (Transition St Act) :=
  o ← get_self;
  '(x, d) ← lift (deque_popleft (buffer o));
  _ ← set_buffer d;
  mret x.

(** [add(self, s, a, r, t, s2)]. *)
Definition add (s : St) (a : Act) (r : float) (t' : bool) (s2 : St) : M t unit :=
  let experience := mkTransition s a r t' s2 in
  o ← get_self;
  if count o <? buffer_size o then
    _ ← buffer_append experience;
    o ← get_self;
    set_count (count o + 1)
  else
    _ ← buffer_popleft;
    buffer_append experience.

(** [size(self)]. *)
Definition size : M t Z :=
  o ← get_self; mret (count o).

(** [sample_batch(self, batch_size)]. *)
Definition sample_batch (batch_size : Z) : M t (Batch St Act) :=
  o ← get_self;
  batch ← (if count o <? batch_size
           then random_sample (buffer o) (count o)
           else random_sample (buffer o) batch_size);
  mret (columns batch).

(** [last_n_batch(self, batch_size)]: [batch] is the deque itself or the
    subscription [self.buffer[-batch_size:]]. *)
Definition last_n_batch (batch_size : Z) : M t (Batch St Act) :=
  o ← get_self;
  batch ← (if count o <? batch_size
           then mret (items (buffer o))
           else
             r ← lift (deque_getitem (buffer o) (KSlice (Some (- batch_size)) None));
             match r with
             | Many l => mret l
             | One _ => raise TypeError
             end);
  mret (columns batch).

(** What an attribute of an instance holds. *)
Inductive attribute : Type :=
  | AInt (z : Z)
  | ADeque (d : deque (Transition St Act))
  | AMethod.

(** [getattr(self, name)]: the three instance attributes and the methods
    of the class; any other name raises [AttributeError]. *)
Definition getattr (o : t) (name : string) : result attribute :=
  if String.eqb name "buffer_size" then Ok (AInt (buffer_size o))
  else if String.eqb name "count" then Ok (AInt (count o))
  else if String.eqb name "buffer" then Ok (ADeque (buffer o))
  else if (String.eqb name "add" || String.eqb name "size"
           || String.eqb name "sample_batch" || String.eqb name "last_n_batch"
           || String.eqb name "clear")%bool then Ok AMethod
  else Raise AttributeError.

(** Stores the deque [d] back under the attribute it was read from. *)
Definition store_deque (o : t) (name : string) (d : deque (Transition St Act)) : t :=
  if String.eqb name "buffer" then mk (buffer_size o) (count o) d else o.

(** [self.<name>.clear()]: the attribute is looked up and, when it holds a
    deque, that deque is emptied in place; integers and bound methods have
    no [clear]. *)
Definition clear_attribute (name : string) : M t unit :=
  o ← get_self;
  a ← lift (getattr o name);
  match a with
  | ADeque d => set_self (store_deque o name (deque_clear d))
  | AInt _ | AMethod => raise AttributeError
  end.

(** [clear(self)]: [self.deque.clear(); self.count = 0]. *)
Definition clear : M t unit :=
  _ ← clear_attribute "deque";
  set_count 0.

(** The calls a training loop makes, and their dispatch. *)
Inductive call : Type :=
  | Add (s : St) (a : Act) (r : float) (t' : bool) (s2 : St)
  | Size
  | SampleBatch (batch_size : Z)
  | LastNBatch (batch_size : Z)
  | Clear.

(** The call of [add] that stores the experience [x]. *)
Definition add_transition (x : Transition St Act) : call :=
  Add (state x) (action x) (reward x) (terminal x) (next_state x).

Definition invoke (c : call) : M t (value St Act) :=
  match c with
  | Add s a r t' s2 => _ ← add s a r t' s2; mret VNone
  | Size => n ← size; mret (VInt n)
  | SampleBatch k => b ← sample_batch k; mret (VBatch b)
  | LastNBatch k => b ← last_n_batch k; mret (VBatch b)
  | Clear => _ ← clear; mret VNone
  end.

(** A sequence of calls; a caller that catches an exception goes on with
    the object as the failed call left it. *)
Fixpoint run (cs : list call) (w : World t) : list (result (value St Act)) * World t :=
  match cs with
  | [] => ([], w)
  | c :: cs' =>
      let '(r, w') := invoke c w in
      let '(rs, w'') := run cs' w' in
      (r :: rs, w'')
  end.

(** The worlds a program can be in: after [__init__] and any calls. *)
Definition reachable (w : World t) : Prop :=
  exists size0 seed i cs w0, init size0 seed i = Ok w0 /\ w = snd (run cs w0).
End Methods.
Arguments t St Act : clear implicits.
Arguments call St Act : clear implicits.
End ReplayBuffer.

(** ** [class PrioritizedReplayBuffer] (the specification's StratifiedBuffer) *)

Module PrioritizedReplayBuffer.
Section Methods.
Context `{Libraries} {St Act : Type}.

Record t : Type := mk {
  buffer_size : Z;
  buffer_pos : deque (Transition St Act);
  buffer_neg : deque (Transition St Act)
}.

(** [__init__(self, buffer_size, random_seed=123)]: both deques are
    created with [maxlen = buffer_size]. *)
Definition init (buffer_size random_seed : Z) (i : Interp) : result (World t) :=
  match deque_new (Some buffer_size) with
  | Ok pos =>
      match deque_new (Some buffer_size) with
      | Ok neg => Ok (snd (seed_random random_seed (mkWorld (mk buffer_size pos neg) i)))
      | Raise e => Raise e
      end
  | Raise e => Raise e
  end.

(** [add(self, s, a, r, t, s2)]: [r <= 0] goes to the negative deque. *)
Definition add (s : St) (a : Act) (r : float) (t' : bool) (s2 : St) : M t unit :=
  let experience := mkTransition s a r t' s2 in
  o ← get_self;
  if PrimFloat.leb r 0%float then
    set_self (mk (buffer_size o) (buffer_pos o) (deque_append (buffer_neg o) experience))
  else
    set_self (mk (buffer_size o) (deque_append (buffer_pos o) experience) (buffer_neg o)).

(** [size(self)]. *)
Definition size : M t Z :=
  o ← get_self; mret (deque_len (buffer_pos o) + deque_len (buffer_neg o)).

(** [sample_batch(self, batch_size, p_ratio=0.25)]. *)
Definition sample_batch (batch_size : Z) (p_ratio : float) : M t (Batch St Act) :=
  product ← lift (int_mul_float batch_size p_ratio);
  pos_sample_size ← lift (int_of_float product);
  o ← get_self;
  let pos_sample_size :=
    if pos_sample_size >? deque_len (buffer_pos o)
    then deque_len (buffer_pos o) else pos_sample_size in
  let neg_sample_size := batch_size - pos_sample_size in
  let neg_sample_size :=
    if neg_sample_size >? deque_len (buffer_neg o)
    then deque_len (buffer_neg o) else neg_sample_size in
  pos_batch ← random_sample (buffer_pos o) pos_sample_size;
  neg_batch ← random_sample (buffer_neg o) neg_sample_size;
  let batch := pos_batch ++ neg_batch in
  mret (columns batch).

(** [clear(self)]. *)
Definition clear : M t unit :=
  o ← get_self;
  _ ← set_self (mk (buffer_size o) (deque_clear (buffer_pos o)) (buffer_neg o));
  o ← get_self;
  set_self (mk (buffer_size o) (buffer_pos o) (deque_clear (buffer_neg o))).

Inductive call : Type :=
  | Add (s : St) (a : Act) (r : float) (t' : bool) (s2 : St)
  | Size
  | SampleBatch (batch_size : Z) (p_ratio : float)
  | Clear.

Definition invoke (c : call) : M t (value St Act) :=
  match c with
  | Add s a r t' s2 => _ ← add s a r t' s2; mret VNone
  | Size => n ← size; mret (VInt n)
  | SampleBatch k p => b ← sample_batch k p; mret (VBatch b)
  | Clear => _ ← clear; mret VNone
  end.

Fixpoint run (cs : list call) (w : World t) : list (result (value St Act)) * World t :=
  match cs with
  | [] => ([], w)
  | c :: cs' =>
      let '(r, w') := invoke c w in
      let '(rs, w'') := run cs' w' in
      (r :: rs, w'')
  end.
End Methods.
Arguments t St Act : clear implicits.
Arguments call St Act : clear implicits.
End PrioritizedReplayBuffer.

(** ** [class PrioritizedReplayBuffer2] (the specification's WeightedStratifiedBuffer) *)

Module PrioritizedReplayBuffer2.
Section Methods.
Context `{Libraries} {St Act : Type}.

Record t : Type := mk {
  buffer_size : Z;
  buffer_pos : deque (Transition St Act);
  buffer_neg : deque (Transition St Act)
}.

(** [__init__(self, buffer_size, random_seed=123)]: seeds [random], the
    generator of the standard library. *)
Definition init (buffer_size random_seed : Z) (i : Interp) : result (World t) :=
  match deque_new (Some buffer_size) with
  | Ok pos =>
      match deque_new (Some buffer_size) with
      | Ok neg => Ok (snd (seed_random random_seed (mkWorld (mk buffer_size pos neg) i)))
      | Raise e => Raise e
      end
  | Raise e => Raise e
  end.

(** [add(self, s, a, r, t, s2)]: [r <= 0.5] goes to the negative deque. *)
Definition add (s : St) (a : Act) (r : float) (t' : bool) (s2 : St) : M t unit :=
  let experience := mkTransition s a r t' s2 in
  o ← get_self;
  if PrimFloat.leb r 0.5%float then
    set_self (mk (buffer_size o) (buffer_pos o) (deque_append (buffer_neg o) experience))
  else
    set_self (mk (buffer_size o) (deque_append (buffer_pos o) experience) (buffer_neg o)).

(** [size(self)]. *)
Definition size : M t Z :=
  o ← get_self; mret (deque_len (buffer_pos o) + deque_len (buffer_neg o)).

(** The weights handed to the weighted draw:
    [softmax(np.array(map(lambda x: x[2], self.buffer_pos), np.float))]. *)
Definition pr_rewards (o : t) : list float :=
  softmax (map reward (items (buffer_pos o))).

(** [sample_batch(self, batch_size, p_ratio=0.25)]: both draws use
    [np.random.choice]. *)
Definition sample_batch (batch_size : Z) (p_ratio : float) : M t (Batch St Act) :=
  o ← get_self;
  let num_pos := deque_len (buffer_pos o) in
  let num_neg := deque_len (buffer_neg o) in
  product ← lift (int_mul_float batch_size p_ratio);
  pos_sample_size ← lift (int_of_float product);
  let pos_sample_size := if pos_sample_size >? num_pos then num_pos else pos_sample_size in
  let neg_sample_size := batch_size - pos_sample_size in
  let neg_sample_size := if neg_sample_size >? num_neg then num_neg else neg_sample_size in
  pos_batch ← (if negb (pos_sample_size =? 0) then
                 pos_batch_idx ← np_random_choice num_pos pos_sample_size (Some (pr_rewards o));
                 lift (take_indices (items (buffer_pos o)) pos_batch_idx)
               else mret []);
  neg_batch_idx ← np_random_choice num_neg neg_sample_size None;
  neg_batch ← lift (take_indices (items (buffer_neg o)) neg_batch_idx);
  let batch := if negb (pos_sample_size =? 0) then pos_batch ++ neg_batch else neg_batch in
  mret (columns batch).

(** [clear(self)]. *)
Definition clear : M t unit :=
  o ← get_self;
  _ ← set_self (mk (buffer_size o) (deque_clear (buffer_pos o)) (buffer_neg o));
  o ← get_self;
  set_self (mk (buffer_size o) (buffer_pos o) (deque_clear (buffer_neg o))).

Inductive call : Type :=
  | Add (s : St) (a : Act) (r : float) (t' : bool) (s2 : St)
  | Size
  | SampleBatch (batch_size : Z) (p_ratio : float)
  | Clear.

Definition invoke (c : call) : M t (value St Act) :=
  match c with
  | Add s a r t' s2 => _ ← add s a r t' s2; mret VNone
  | Size => n ← size; mret (VInt n)
  | SampleBatch k p => b ← sample_batch k p; mret (VBatch b)
  | Clear => _ ← clear; mret VNone
  end.

Fixpoint run (cs : list call) (w : World t) : list (result (value St Act)) * World t :=
  match cs with
  | [] => ([], w)
  | c :: cs' =>
      let '(r, w') := invoke c w in
      let '(rs, w'') := run cs' w' in
      (r :: rs, w'')
  end.
End Methods.
Arguments t St Act : clear implicits.
Arguments call St Act : clear implicits.
End PrioritizedReplayBuffer2.

(** ** A concrete interpreter, for examples *)

Module Example.
(** A linear congruential generator, as the tape of raw numbers. *)
Definition lcg (x : Z) : Z := (1103515245 * x + 12345) mod 2147483648.

Definition lcg_tape (seed : Z) (i : nat) : nat :=
  Z.to_nat (Nat.iter (Datatypes.S i) lcg (seed mod 2147483648) / 65536).

(** The next float in [0, 1). *)
Definition rand_float (g : rng) : float * rng :=
  let x := Z.of_nat (tape g (cursor g)) mod 32768 in
  ((SF2Prim (binary_normalize prec emax x 0 false) / 32768)%float,
   mkRng (tape g) (Datatypes.S (cursor g))).

(** The position of the first running sum above [target]. *)
Fixpoint bucket (p : list float) (acc target : float) (j : nat) : nat :=
  match p with
  | [] => j
  | x :: p' =>
      let acc' := (acc + x)%float in
      if PrimFloat.ltb target acc' then j else bucket p' acc' target (Datatypes.S j)
  end.

(** Sequential weighted draws: pick along the running sums of the
    remaining weights, then zero the picked weight. *)
Fixpoint weighted_loop (steps : nat) (p : list float) (g : rng) : list nat * rng :=
  match steps with
  | O => ([], g)
  | Datatypes.S steps' =>
      let '(x, g') := rand_float g in
      let j := bucket p 0%float (x * np_sum p)%float 0 in
      let '(r, g'') := weighted_loop steps' (<[j := 0%float]> p) g' in
      (j :: r, g'')
  end.

(** A weighted draw without replacement with numpy's checks: the weights
    are as many as the population, none is negative, and at least [size]
    of them are positive. *)
Definition sequential_weighted_choice (a size : Z) (p : list float) (g : rng)
  : result (list nat) * rng :=
  if negb (Z.of_nat (length p) =? a) then (Raise ValueError, g)
  else if existsb (fun x => PrimFloat.ltb x 0%float) p then (Raise ValueError, g)
  else if Z.of_nat (length (filter (fun x => PrimFloat.ltb 0%float x = true) p)) <? size
       then (Raise ValueError, g)
  else let '(r, g') := weighted_loop (Z.to_nat size) p g in (Ok r, g').

#[export] Instance libraries : Libraries := {
  seed_tape := lcg_tape;
  choice_empty_ok := false;
  choice_weighted := sequential_weighted_choice
}.

(** Two generator states an interpreter can be in before a buffer exists. *)
Definition fresh : Interp := mkInterp (mkRng (lcg_tape 1) 0) (mkRng (lcg_tape 2) 0).
Definition later : Interp := mkInterp (mkRng (lcg_tape 1) 0) (mkRng (lcg_tape 2) 7).

(** Transitions over integer states and actions. *)
Definition tr (n : Z) (r : float) : Transition Z Z := mkTransition n n r false (n + 1).

(** A [ReplayBuffer] of capacity 2, built with seed 123, after three adds. *)
Definition uniform_calls : list (ReplayBuffer.call Z Z) :=
  ReplayBuffer.add_transition <$> [tr 1 1; tr 2 0; tr 3 1].

Definition uniform_start : World (ReplayBuffer.t Z Z) :=
  mkWorld (ReplayBuffer.mk 2 0 (mkDeque [] None))
          (mkInterp (mkRng (lcg_tape 123) 0) (np_random fresh)).

Definition uniform_world : World (ReplayBuffer.t Z Z) :=
  snd (ReplayBuffer.run uniform_calls uniform_start).

(** A [PrioritizedReplayBuffer] of capacity 20 holding 5 positive and 15
    negative transitions. *)
Definition stratified_start : World (PrioritizedReplayBuffer.t Z Z) :=
  mkWorld (PrioritizedReplayBuffer.mk 20 (mkDeque [] (Some 20)) (mkDeque [] (Some 20)))
          (mkInterp (mkRng (lcg_tape 123) 0) (np_random fresh)).

Definition stratified_world : World (PrioritizedReplayBuffer.t Z Z) :=
  snd (PrioritizedReplayBuffer.run
         (replicate 5 (PrioritizedReplayBuffer.Add 1 1 1%float false 2)
          ++ replicate 15 (PrioritizedReplayBuffer.Add 2 2 0%float false 3))
         stratified_start).

(** The calls of the determinism scenario: three adds that land in the
    negative partition, then one batch of two. *)
Definition weighted_calls : list (PrioritizedReplayBuffer2.call Z Z) :=
  [PrioritizedReplayBuffer2.Add 1 1 0%float false 2;
   PrioritizedReplayBuffer2.Add 2 2 0%float false 3;
   PrioritizedReplayBuffer2.Add 3 3 0%float false 4;
   PrioritizedReplayBuffer2.SampleBatch 2 0.25%float].
End Example.

(** * Vocabulary of the statements *)

Section Effects.
Context {Obj : Type}.

(** The computation never changes the object it runs on. *)
Definition preserves_self {X} (m : M Obj X) : Prop :=
  forall w, self (snd (m w)) = self w.

(** Two worlds that differ at most in the state of [numpy.random]. *)
Definition agree (w1 w2 : World Obj) : Prop :=
  self w1 = self w2 /\ py_random (interp w1) = py_random (interp w2).

(** The computation neither reads nor writes [numpy.random]. *)
Definition np_blind {X} (m : M Obj X) : Prop :=
  forall w1 w2, agree w1 w2 ->
    fst (m w1) = fst (m w2) /\ agree (snd (m w1)) (snd (m w2)).
End Effects.

Section Selection.
Context {T : Type}.

(** The selection loop of [random.sample] replayed on given draws: [m] is
    the number of items not yet selected, kept in the first [m] cells. *)
Fixpoint select (ds : list nat) (m : nat) (pool : list T) : option (list T) :=
  match ds with
  | [] => Some []
  | d :: ds' =>
      match pool !! d, pool !! (m - 1)%nat with
      | Some x, Some y => cons x <$> select ds' (m - 1) (<[d := y]> pool)
      | _, _ => None
      end
  end.
End Selection.

(** The draws the loop makes from a generator: the [t]-th one is scaled
    into the [m - t] cells that are left. *)
Definition draws (g : rng) (m k : nat) : list nat :=
  map (fun t => (tape g (cursor g + t) mod (m - t))%nat) (seq 0 k).

(** Each draw falls into the cells that are left. *)
Definition in_range (m : nat) (ds : list nat) : Prop :=
  forall t d, ds !! t = Some d -> (d < m - t)%nat.

Section Invariants.
Context {St Act : Type}.

(** What holds of every [ReplayBuffer] a program can hold: the count is
    the length of the deque, the deque is unbounded, and a buffer of
    non-negative capacity stays within it. *)
Definition uniform_inv (size0 : Z) (o : ReplayBuffer.t St Act) : Prop :=
  ReplayBuffer.buffer_size o = size0
  /\ ReplayBuffer.count o = deque_len (ReplayBuffer.buffer o)
  /\ maxlen (ReplayBuffer.buffer o) = None
  /\ (0 <= size0 -> ReplayBuffer.count o <= size0).

(** What holds of every stratified buffer: both deques are bounded by
    the capacity and within it. *)
Definition stratified_inv (size0 : Z) (o : PrioritizedReplayBuffer.t St Act) : Prop :=
  PrioritizedReplayBuffer.buffer_size o = size0
  /\ maxlen (PrioritizedReplayBuffer.buffer_pos o) = Some size0
  /\ maxlen (PrioritizedReplayBuffer.buffer_neg o) = Some size0
  /\ deque_len (PrioritizedReplayBuffer.buffer_pos o) <= size0
  /\ deque_len (PrioritizedReplayBuffer.buffer_neg o) <= size0.

Definition weighted_inv (size0 : Z) (o : PrioritizedReplayBuffer2.t St Act) : Prop :=
  PrioritizedReplayBuffer2.buffer_size o = size0
  /\ maxlen (PrioritizedReplayBuffer2.buffer_pos o) = Some size0
  /\ maxlen (PrioritizedReplayBuffer2.buffer_neg o) = Some size0
  /\ deque_len (PrioritizedReplayBuffer2.buffer_pos o) <= size0
  /\ deque_len (PrioritizedReplayBuffer2.buffer_neg o) <= size0.
End Invariants.

(** ** Further vocabulary *)

(** The last [n] items of a list (all of them when there are fewer). *)
Definition keep_last {T : Type} (n : Z) (l : list T) : list T :=
  drop (length l - Z.to_nat n) l.

Section Routing.
Context {St Act : Type}.

(** [r <= 0], the test of [PrioritizedReplayBuffer.add]. *)
Definition nonpositive (x : Transition St Act) : bool := PrimFloat.leb (reward x) 0%float.

(** [r <= 0.5], the test of [PrioritizedReplayBuffer2.add]. *)
Definition at_most_half (x : Transition St Act) : bool := PrimFloat.leb (reward x) 0.5%float.

(** The calls of [add] that store the experience [x]. *)
Definition stratified_add_call (x : Transition St Act) : PrioritizedReplayBuffer.call St Act :=
  PrioritizedReplayBuffer.Add (state x) (action x) (reward x) (terminal x) (next_state x).

Definition weighted_add_call (x : Transition St Act) : PrioritizedReplayBuffer2.call St Act :=
  PrioritizedReplayBuffer2.Add (state x) (action x) (reward x) (terminal x) (next_state x).
End Routing.


Definition weighted_empty_example : World (PrioritizedReplayBuffer2.t Z Z) :=
  mkWorld (PrioritizedReplayBuffer2.mk 10 (mkDeque [] (Some 10)) (mkDeque [] (Some 10)))
          Example.fresh.

(** ** [preprocess.py] *)

(** [getIndex(word)] on the module-level dictionary [indexer]:
    [if word not in indexer: indexer[word] = len(indexer)+1;
    return indexer[word]].  The dictionary is passed in and out; [None]
    stands for the [KeyError] of the final lookup. *)
Definition getIndex (word : string) (indexer : gmap string Z)
  : option Z * gmap string Z :=
  let indexer :=
    if bool_decide (is_Some (indexer !! word)) then indexer
    else <[word := Z.of_nat (size indexer) + 1]> indexer in
  (indexer !! word, indexer).

(** [map(getIndex, words)] of Python 2: the calls run left to right on the
    shared dictionary and the results are collected in a list. *)
Fixpoint map_getIndex (words : list string) (indexer : gmap string Z)
  : option (list Z) * gmap string Z :=
  match words with
  | [] => (Some [], indexer)
  | word :: words' =>
      match getIndex word indexer with
      | (Some i, indexer') =>
          let '(r, indexer'') := map_getIndex words' indexer' in
          (cons i <$> r, indexer'')
      | (None, indexer') => (None, indexer')
      end
  end.

Section Sentences.
(** keras' tokenizer, taken as it is. *)
Variable text_to_word_sequence : string -> list string.

(** [sent2seq(sentence, length)]:
    [seq = map(getIndex, text_to_word_sequence(sentence));
    return seq + [0]*(length-len(seq))]. *)
Definition sent2seq (sentence : string) (length : Z) (indexer : gmap string Z)
  : option (list Z) * gmap string Z :=
  let '(seq, indexer') := map_getIndex (text_to_word_sequence sentence) indexer in
  ((fun seq => seq ++ replicate (Z.to_nat (length - Z.of_nat (List.length seq))) 0) <$> seq,
   indexer').
End Sentences.

Section Histories.
Context {T : Type}.

(** [l[i] = x] on a list: negative indices count from the right, and an
    index out of range raises [IndexError]. *)
Definition list_setitem (l : list T) (i : Z) (x : T) : result (list T) :=
  let n := Z.of_nat (length l) in
  let j := if i <? 0 then i + n else i in
  if (j <? 0) || (n <=? j) then Raise IndexError else Ok (<[Z.to_nat j := x]> l).

(** [deque(iterable, maxlen)]: the items are appended one by one. *)
Definition deque_from (l : list T) (bound : option Z) : result (deque T) :=
  match deque_new bound with
  | Ok d => Ok (foldl deque_append d l)
  | Raise e => Raise e
  end.

(** [copy.copy(d)]: a new deque with the same items and bound. *)
Definition deque_copy (d : deque T) : deque T := mkDeque (items d) (maxlen d).
End Histories.

(** [initHist(state, hist_size=5, null=True)]: [hist_size] states, zero
    vectors of the length of [state] before [state] itself when [null], and
    copies of [state] otherwise, in a deque bounded by [hist_size]. *)
Definition initHist (state : list Z) (hist_size : Z) (null : bool)
  : result (deque (list Z)) :=
  let states :=
    if null then
      list_setitem (replicate (Z.to_nat hist_size) (replicate (length state) 0)) (-1) state
    else Ok (replicate (Z.to_nat hist_size) state) in
  match states with
  | Ok states => deque_from states (Some hist_size)
  | Raise e => Raise e
  end.

(** [addHistoryState(hist, state)]:
    [hist2 = copy.copy(hist); hist2.append(state); return hist2]. *)
Definition addHistoryState (hist : deque (list Z)) (state : list Z) : deque (list Z) :=
  let hist2 := deque_copy hist in
  deque_append hist2 state.

(** The dictionary assigns the indices [1, ..., len(indexer)], each to one word. *)
Definition indexer_ok (indexer : gmap string Z) : Prop :=
  (forall word i, indexer !! word = Some i -> 1 <= i <= Z.of_nat (size indexer))
  /\ (forall w1 w2 i, indexer !! w1 = Some i -> indexer !! w2 = Some i -> w1 = w2).

(** * Lemmas *)

(** ** Which computations leave the object alone *)

Section Frame.
Context {Obj : Type}.

Lemma preserves_ret {X} (x : X) : preserves_self (Obj:=Obj) (mret x).
Proof. intros w. reflexivity. Qed.

Lemma preserves_raise {X} (e : exn) : preserves_self (Obj:=Obj) (raise (X:=X) e).
Proof. intros w. reflexivity. Qed.

Lemma preserves_lift {X} (r : result X) : preserves_self (Obj:=Obj) (lift r).
Proof. intros w. reflexivity. Qed.

Lemma preserves_get_self : preserves_self (Obj:=Obj) get_self.
Proof. intros w. reflexivity. Qed.

Lemma preserves_with_py_random {X} (f : rng -> result X * rng) :
  preserves_self (Obj:=Obj) (with_py_random f).
Proof. intros w. unfold with_py_random. destruct (f _). reflexivity. Qed.

Lemma preserves_with_np_random {X} (f : rng -> result X * rng) :
  preserves_self (Obj:=Obj) (with_np_random f).
Proof. intros w. unfold with_np_random. destruct (f _). reflexivity. Qed.

Lemma preserves_bind {X Y} (m : M Obj X) (f : X -> M Obj Y) :
  preserves_self m -> (forall x, preserves_self (Obj:=Obj) (f x)) ->
  preserves_self (Obj:=Obj) (m ≫= f).
Proof.
  intros Hm Hf w. unfold mbind, M_bind.
  specialize (Hm w). destruct (m w) as [[x|e] w']; simpl in *.
  - rewrite Hf. exact Hm.
  - exact Hm.
Qed.
End Frame.

Create HintDb frame.

#[export] Hint Resolve preserves_ret preserves_raise preserves_lift preserves_get_self
  preserves_with_py_random preserves_with_np_random : frame.

Ltac frame :=
  repeat first
    [ apply preserves_bind; [ | intros ? ]
    | progress eauto with frame
    | match goal with
      | |- preserves_self (if ?b then _ else _) => destruct b
      | |- preserves_self (match ?x with _ => _ end) => destruct x
      | |- preserves_self (let 'pair _ _ := ?x in _) => destruct x
      end ].

Lemma uniform_sample_batch_frame `{Libraries} {St Act} (batch_size : Z) :
  preserves_self (ReplayBuffer.sample_batch (St:=St) (Act:=Act) batch_size).
Proof. unfold ReplayBuffer.sample_batch, random_sample. frame. Qed.

Lemma stratified_sample_batch_frame `{Libraries} {St Act} (batch_size : Z) (p_ratio : float) :
  preserves_self (PrioritizedReplayBuffer.sample_batch (St:=St) (Act:=Act) batch_size p_ratio).
Proof. unfold PrioritizedReplayBuffer.sample_batch, random_sample. frame. Qed.

Lemma weighted_sample_batch_frame `{Libraries} {St Act} (batch_size : Z) (p_ratio : float) :
  preserves_self (PrioritizedReplayBuffer2.sample_batch (St:=St) (Act:=Act) batch_size p_ratio).
Proof. unfold PrioritizedReplayBuffer2.sample_batch, np_random_choice. frame. Qed.

(** ** Which computations ignore [numpy.random] *)

Section Blind.
Context {Obj : Type}.

Lemma blind_ret {X} (x : X) : np_blind (Obj:=Obj) (mret x).
Proof. intros w1 w2 Ha. split; [reflexivity|exact Ha]. Qed.

Lemma blind_raise {X} (e : exn) : np_blind (Obj:=Obj) (raise (X:=X) e).
Proof. intros w1 w2 Ha. split; [reflexivity|exact Ha]. Qed.

Lemma blind_lift {X} (r : result X) : np_blind (Obj:=Obj) (lift r).
Proof. intros w1 w2 Ha. split; [reflexivity|exact Ha]. Qed.

Lemma blind_get_self : np_blind (Obj:=Obj) get_self.
Proof. intros w1 w2 Ha. split; [simpl; f_equal; apply Ha|exact Ha]. Qed.

Lemma blind_set_self (o : Obj) : np_blind (Obj:=Obj) (set_self o).
Proof. intros w1 w2 [_ Hp]. split; [reflexivity|]. split; [reflexivity|exact Hp]. Qed.

Lemma blind_with_py_random {X} (f : rng -> result X * rng) :
  np_blind (Obj:=Obj) (with_py_random f).
Proof.
  intros w1 w2 [Hs Hp]. unfold with_py_random. rewrite Hp.
  destruct (f _) as [r g]. split; [reflexivity|]. split; [exact Hs|reflexivity].
Qed.

End Blind.

Create HintDb blind.

#[export] Hint Resolve blind_ret blind_raise blind_lift blind_get_self blind_set_self
  blind_with_py_random : blind.


Section Determinism.
Context `{Libraries} {St Act : Type}.




End Determinism.

(** ** Deques *)

Section DequeFacts.
Context {T : Type}.
Implicit Types (d : deque T).

Lemma deque_append_maxlen d x : maxlen (deque_append d x) = maxlen d.
Proof.
  unfold deque_append. destruct (maxlen d) as [n|] eqn:Hm; [|done].
  destruct (_ <? _); simpl; done.
Qed.

(** A bounded deque within its bound grows by one item until it is full. *)
Lemma deque_append_len d x n :
  maxlen d = Some n -> deque_len d <= n ->
  deque_len (deque_append d x) = Z.min (deque_len d + 1) n.
Proof.
  unfold deque_append, deque_len. intros -> Hle.
  destruct (Z.ltb_spec n (Z.of_nat (length (items d ++ [x])))) as [Hlt|Hge];
    simpl; rewrite ?length_drop; rewrite length_app in *; simpl in *; lia.
Qed.

(** What an unbounded deque holds after an append. *)
Lemma deque_append_unbounded d x :
  maxlen d = None -> deque_append d x = mkDeque (items d ++ [x]) None.
Proof. unfold deque_append. by intros ->. Qed.
End DequeFacts.

(** ** The selection loop of [random.sample] *)

Section SelectFacts.
Context {T : Type}.
Implicit Types (pool : list T) (ds : list nat).

Lemma in_range_cons m d ds :
  in_range m (d :: ds) <-> (d < m)%nat /\ in_range (m - 1) ds.
Proof.
  unfold in_range. split.
  - intros Hr. split.
    + specialize (Hr 0%nat d eq_refl). lia.
    + intros t d' Hd. specialize (Hr (Datatypes.S t) d' Hd). lia.
  - intros [Hd Hr] [|t] d' Hl; simpl in Hl.
    + injection Hl as <-. lia.
    + specialize (Hr t d' Hl). lia.
Qed.

Lemma draws_in_range g m k : (k <= m)%nat -> in_range m (draws g m k).
Proof.
  intros Hk t d Hd. unfold draws in Hd.
  rewrite list_lookup_fmap in Hd.
  destruct (seq 0 k !! t) as [t'|] eqn:Ht; [|discriminate].
  apply lookup_seq in Ht as [-> Hlt]. simpl in Hd. injection Hd as <-.
  apply Nat.mod_upper_bound. lia.
Qed.

Lemma draws_length g m k : length (draws g m k) = k.
Proof. unfold draws. rewrite length_map, length_seq. reflexivity. Qed.

Lemma draws_S g m k :
  draws g m (Datatypes.S k)
  = (tape g (cursor g) mod m)%nat
    :: draws (mkRng (tape g) (Datatypes.S (cursor g))) (m - 1) k.
Proof.
  unfold draws. simpl. rewrite Nat.add_0_r, Nat.sub_0_r. f_equal.
  rewrite <- fmap_S_seq. rewrite <- list_fmap_compose.
  apply list_fmap_ext. intros _ t _. simpl.
  replace (cursor g + Datatypes.S t)%nat with (Datatypes.S (cursor g + t)) by lia.
  replace (m - Datatypes.S t)%nat with (m - 1 - t)%nat by lia. reflexivity.
Qed.

(** One step of the loop keeps the unselected items: what was in the
    first [m] cells is the picked item and the first [m - 1] cells. *)
Lemma select_step_perm pool m d x y :
  (d < m)%nat -> pool !! d = Some x -> pool !! (m - 1)%nat = Some y ->
  take m pool ≡ₚ x :: take (m - 1) (<[d := y]> pool).
Proof.
  intros Hd Hx Hy.
  replace m with (Datatypes.S (m - 1)) at 1 by lia.
  rewrite (take_S_r _ _ _ Hy).
  destruct (decide (d = m - 1)%nat) as [->|Hne].
  - assert (x = y) as -> by congruence.
    rewrite list_insert_id by done.
    rewrite Permutation_app_comm. done.
  - rewrite take_insert_lt by lia.
    assert (take (m - 1) pool !! d = Some x) as Hx'.
    { rewrite lookup_take_lt by lia. done. }
    rewrite insert_take_drop by (apply lookup_lt_is_Some; eauto).
    rewrite <- (take_drop_middle _ _ _ Hx') at 1.
    rewrite <- !Permutation_middle.
    rewrite app_nil_r. apply Permutation_swap.
Qed.

Lemma select_length ds : forall m pool r,
  select ds m pool = Some r -> length r = length ds.
Proof.
  induction ds as [|d ds IH]; intros m pool r Hs; simpl in Hs.
  - by injection Hs as <-.
  - destruct (pool !! d) as [x|]; [|done].
    destruct (pool !! (m - 1)%nat) as [y|]; [|done].
    destruct (select ds _ _) as [r'|] eqn:Hr; [|done].
    injection Hs as <-. simpl. f_equal. eauto.
Qed.

(** Enough cells and draws in range: the loop never indexes out of range. *)
Lemma select_is_Some ds : forall m pool,
  in_range m ds -> (length ds <= m)%nat -> (m <= length pool)%nat ->
  is_Some (select ds m pool).
Proof.
  induction ds as [|d ds IH]; intros m pool Hr Hl Hm; simpl in *.
  - eauto.
  - apply in_range_cons in Hr as [Hd Hr].
    destruct (lookup_lt_is_Some_2 pool d) as [x ->]; [lia|].
    destruct (lookup_lt_is_Some_2 pool (m - 1)%nat) as [y ->]; [lia|].
    destruct (IH (m - 1)%nat (<[d := y]> pool)) as [r ->]; eauto.
    + lia.
    + rewrite length_insert. lia.
Qed.

(** The selected items are among the first [m] cells, each cell at most once. *)
Lemma select_submseteq ds : forall m pool r,
  in_range m ds -> select ds m pool = Some r -> r ⊆+ take m pool.
Proof.
  induction ds as [|d ds IH]; intros m pool r Hr Hs; simpl in Hs.
  - injection Hs as <-. apply submseteq_nil_l.
  - apply in_range_cons in Hr as [Hd Hr].
    destruct (pool !! d) as [x|] eqn:Hx; [|done].
    destruct (pool !! (m - 1)%nat) as [y|] eqn:Hy; [|done].
    destruct (select ds _ _) as [r'|] eqn:Hr'; [|done].
    injection Hs as <-.
    rewrite (select_step_perm pool m d x y) by done.
    apply submseteq_skip. eauto.
Qed.



(** The loop on a generator is the replay on its draws. *)
Lemma sample_loop_select steps : forall i n pool g r,
  select (draws g (n - i) steps) (n - i) pool = Some r ->
  sample_loop steps i n pool g = (Ok r, mkRng (tape g) (cursor g + steps)).
Proof.
  induction steps as [|steps IH]; intros i n pool g r Hs.
  - simpl in *. injection Hs as <-. rewrite Nat.add_0_r. by destruct g.
  - rewrite draws_S in Hs. simpl in Hs. simpl.
    destruct (pool !! _) as [x|]; [|done].
    destruct (pool !! (n - i - 1)%nat) as [y|]; [|done].
    destruct (select _ _ _) as [r'|] eqn:Hr'; [|done].
    injection Hs as <-.
    replace (n - i - 1)%nat with (n - Datatypes.S i)%nat in Hr' by lia.
    rewrite (IH _ _ _ _ _ Hr'). simpl. do 2 f_equal. f_equal. lia.
Qed.
End SelectFacts.

Lemma select_fmap {T U} (f : T -> U) ds : forall m (pool : list T),
  select ds m (f <$> pool) = fmap (M:=option) (fmap (M:=list) f) (select ds m pool).
Proof.
  induction ds as [|d ds IH]; intros m pool; simpl; [done|].
  rewrite !list_lookup_fmap.
  destruct (pool !! d) as [x|]; [|done].
  destruct (pool !! (m - 1)%nat) as [y|]; [|done]. simpl.
  rewrite <- list_fmap_insert, IH.
  destruct (select ds _ _); done.
Qed.

Section SampleOn.
Context {T : Type}.
Implicit Types (population : list T).

Lemma zip_seq_lookup population i x :
  (i, x) ∈ zip (seq 0 (length population)) population -> population !! i = Some x.
Proof.
  intros Hin. apply list_elem_of_lookup_1 in Hin as [j Hj].
  apply lookup_zip_with_Some in Hj as (i' & x' & Heq & Hi & Hx).
  injection Heq as -> ->. apply lookup_seq in Hi as [-> _]. exact Hx.
Qed.

Lemma take_indices_pairs population (rp : list (nat * T)) :
  (forall i x, (i, x) ∈ rp -> population !! i = Some x) ->
  take_indices population rp.*1 = Ok rp.*2.
Proof.
  induction rp as [|[i x] rp IH]; intros Hall; [done|].
  rewrite !fmap_cons. cbn [take_indices fst snd].
  rewrite (Hall i x) by left.
  rewrite IH; [done|]. intros j y Hj. apply Hall. by right.
Qed.



(** [random.sample] within its precondition: it returns, consuming [k]
    raw numbers, the items at the positions the draws select from
    [0, ..., n-1]; these positions are distinct. *)
Lemma sample_on_positions population k g :
  0 <= k <= Z.of_nat (length population) ->
  let n := length population in
  exists idx r,
    select (draws g n (Z.to_nat k)) n (seq 0 n) = Some idx
    /\ sample_on population k g = (Ok r, mkRng (tape g) (cursor g + Z.to_nat k))
    /\ take_indices population idx = Ok r
    /\ NoDup idx
    /\ (forall i, i ∈ idx -> (i < n)%nat)
    /\ length idx = Z.to_nat k.
Proof.
  intros Hk n.
  set (ds := draws g n (Z.to_nat k)).
  set (poolp := zip (seq 0 n) population).
  assert (in_range n ds) as Hr by (apply draws_in_range; lia).
  assert (length ds = Z.to_nat k) as Hlen by apply draws_length.
  assert (length poolp = n) as Hpl.
  { unfold poolp. rewrite length_zip, length_seq. lia. }
  destruct (select_is_Some ds n poolp) as [rp Hrp]; [done|lia|lia|].
  assert (poolp.*1 = seq 0 n) as H1.
  { unfold poolp. apply fst_zip. rewrite length_seq. done. }
  assert (poolp.*2 = population) as H2.
  { unfold poolp. apply snd_zip. rewrite length_seq. done. }
  pose proof (select_fmap fst ds n poolp) as Hfst.
  pose proof (select_fmap snd ds n poolp) as Hsnd.
  rewrite Hrp, H1 in Hfst. rewrite Hrp, H2 in Hsnd. simpl in Hfst, Hsnd.
  pose proof (select_submseteq ds n (seq 0 n) _ Hr Hfst) as Hsub.
  rewrite take_ge in Hsub by (rewrite length_seq; done).
  exists rp.*1, rp.*2. split; [exact Hfst|]. split.
  { unfold sample_on. fold n.
    destruct (Z.leb_spec 0 k); [|lia]. destruct (Z.leb_spec k (Z.of_nat n)); [|lia].
    simpl. apply sample_loop_select. rewrite Nat.sub_0_r. exact Hsnd. }
  split.
  { apply take_indices_pairs. intros i x Hin. apply zip_seq_lookup.
    pose proof (select_submseteq ds n poolp _ Hr Hrp) as Hsubp.
    rewrite take_ge in Hsubp by lia.
    eapply elem_of_submseteq; eauto. }
  split.
  { apply submseteq_Permutation in Hsub as [rest Hp].
    pose proof (NoDup_seq 0 n) as Hnd. rewrite Hp in Hnd.
    by apply NoDup_app in Hnd as [? _]. }
  split.
  { intros i Hi. eapply elem_of_submseteq in Hi; eauto.
    apply elem_of_seq in Hi. lia. }
  rewrite length_fmap. apply select_length in Hrp. lia.
Qed.

(** Outside the precondition it raises and draws nothing. *)
Lemma sample_on_out_of_range population k g :
  ~ (0 <= k <= Z.of_nat (length population)) ->
  sample_on population k g = (Raise ValueError, g).
Proof.
  intros Hk. unfold sample_on.
  destruct (Z.leb_spec 0 k); destruct (Z.leb_spec k (Z.of_nat (length population)));
    simpl; try reflexivity; lia.
Qed.
End SampleOn.


(** ** [ReplayBuffer] *)

Section UniformFacts.
Context `{Libraries} {St Act : Type}.
Implicit Types (w : World (ReplayBuffer.t St Act)) (o : ReplayBuffer.t St Act).

(** [add] in one equation. *)
Lemma uniform_add_eq s a r t' s2 w :
  ReplayBuffer.add s a r t' s2 w =
  let o := self w in
  let x := mkTransition s a r t' s2 in
  if ReplayBuffer.count o <? ReplayBuffer.buffer_size o then
    (Ok tt, mkWorld (ReplayBuffer.mk (ReplayBuffer.buffer_size o) (ReplayBuffer.count o + 1)
                       (deque_append (ReplayBuffer.buffer o) x)) (interp w))
  else match items (ReplayBuffer.buffer o) with
       | [] => (Raise IndexError, w)
       | _ :: l =>
           (Ok tt, mkWorld (ReplayBuffer.mk (ReplayBuffer.buffer_size o) (ReplayBuffer.count o)
                              (deque_append (mkDeque l (maxlen (ReplayBuffer.buffer o))) x))
                     (interp w))
       end.
Proof.
  destruct w as [[bs c [l ml]] i]. simpl.
  unfold ReplayBuffer.add, mbind, M_bind, get_self. simpl.
  destruct (c <? bs); [reflexivity|].
  unfold ReplayBuffer.buffer_popleft, mbind, M_bind, get_self, lift, deque_popleft. simpl.
  destruct l; reflexivity.
Qed.

Lemma uniform_clear_eq w : ReplayBuffer.clear w = (Raise AttributeError, w).
Proof.
  unfold ReplayBuffer.clear, ReplayBuffer.clear_attribute.
  unfold mbind, M_bind, get_self, lift. simpl. reflexivity.
Qed.

Lemma uniform_last_n_batch_eq w n :
  ReplayBuffer.last_n_batch n w
  = (if ReplayBuffer.count (self w) <? n
     then Ok (columns (items (ReplayBuffer.buffer (self w))))
     else Raise TypeError, w).
Proof.
  unfold ReplayBuffer.last_n_batch, mbind, M_bind, get_self, lift, mret, M_ret.
  destruct w as [o i]; simpl.
  destruct (ReplayBuffer.count o <? n); reflexivity.
Qed.

Lemma uniform_add_inv size0 s a r t' s2 w :
  uniform_inv size0 (self w) ->
  uniform_inv size0 (self (snd (ReplayBuffer.add s a r t' s2 w))).
Proof.
  intros (Hs & Hc & Hm & Hb). rewrite uniform_add_eq.
  destruct w as [[bs c [l ml]] i]. unfold deque_len in *. simpl in *. subst.
  destruct (Z.ltb_spec (Z.of_nat (length l)) size0).
  - simpl. unfold uniform_inv, deque_append, deque_len. simpl.
    rewrite length_app. simpl. repeat split; lia.
  - destruct l as [|x l]; simpl; [repeat split; simpl; done|].
    unfold uniform_inv, deque_append, deque_len. simpl.
    rewrite length_app. simpl in *. repeat split; lia.
Qed.

Lemma uniform_invoke_inv size0 c w :
  uniform_inv size0 (self w) ->
  uniform_inv size0 (self (snd (ReplayBuffer.invoke c w))).
Proof.
  intros Hinv. destruct c; cbn [ReplayBuffer.invoke]; unfold mbind, M_bind.
  - pose proof (uniform_add_inv size0 s a r t' s2 w Hinv) as Ha.
    destruct (ReplayBuffer.add s a r t' s2 w) as [[[]|e] w']; exact Ha.
  - unfold ReplayBuffer.size, mbind, M_bind, get_self. exact Hinv.
  - pose proof (uniform_sample_batch_frame batch_size w) as Hf.
    destruct (ReplayBuffer.sample_batch batch_size w) as [[b|e] w']; simpl in *;
      rewrite Hf; exact Hinv.
  - rewrite uniform_last_n_batch_eq.
    destruct (_ <? _); exact Hinv.
  - rewrite uniform_clear_eq. exact Hinv.
Qed.

Lemma uniform_run_inv size0 cs : forall w,
  uniform_inv size0 (self w) ->
  uniform_inv size0 (self (snd (ReplayBuffer.run cs w))).
Proof.
  induction cs as [|c cs IH]; intros w Hinv; simpl; [done|].
  pose proof (uniform_invoke_inv size0 c w Hinv) as Hc.
  destruct (ReplayBuffer.invoke c w) as [r w'].
  specialize (IH w' Hc). destruct (ReplayBuffer.run cs w') as [rs w'']. exact IH.
Qed.

Lemma uniform_init_inv size0 seed i :
  exists w0, ReplayBuffer.init size0 seed i = Ok w0
    /\ uniform_inv size0 (self w0)
    /\ items (ReplayBuffer.buffer (self w0)) = [].
Proof. eexists. split; [reflexivity|]. repeat split; simpl; done. Qed.

Lemma uniform_reachable_inv w :
  ReplayBuffer.reachable w -> exists size0, uniform_inv size0 (self w).
Proof.
  intros (size0 & seed & i & cs & w0 & Hinit & ->).
  exists size0. apply uniform_run_inv.
  destruct (uniform_init_inv size0 seed i) as (w0' & Hinit' & Hinv & _).
  congruence.
Qed.
End UniformFacts.

Section UniformSampling.
Context `{Libraries} {St Act : Type}.
Implicit Types (w : World (ReplayBuffer.t St Act)).

(** [sample_batch] in one equation: one call of [random.sample] with the
    clamped size. *)
Lemma uniform_sample_batch_eq batch_size w :
  ReplayBuffer.sample_batch batch_size w =
  let o := self w in
  let k := if ReplayBuffer.count o <? batch_size then ReplayBuffer.count o else batch_size in
  let '(r, g) := sample_on (items (ReplayBuffer.buffer o)) k (py_random (interp w)) in
  (match r with Ok batch => Ok (columns batch) | Raise e => Raise e end,
   mkWorld o (mkInterp g (np_random (interp w)))).
Proof.
  unfold ReplayBuffer.sample_batch, mbind, M_bind, get_self, random_sample, with_py_random.
  destruct w as [o i]. simpl.
  destruct (ReplayBuffer.count o <? batch_size);
    destruct (sample_on _ _ _) as [[batch|e] g]; reflexivity.
Qed.
End UniformSampling.

Section UniformAdds.
Context `{Libraries} {St Act : Type}.
Implicit Types (w : World (ReplayBuffer.t St Act)) (x : Transition St Act).

(** One [add] on a buffer of positive capacity: it succeeds, and the deque
    holds the old items and the new one, without the oldest when full. *)
Lemma uniform_add_items size0 x w :
  0 < size0 -> uniform_inv size0 (self w) ->
  let l := items (ReplayBuffer.buffer (self w)) in
  let r := ReplayBuffer.invoke (ReplayBuffer.add_transition x) w in
  fst r = Ok VNone
  /\ items (ReplayBuffer.buffer (self (snd r)))
     = drop (length l + 1 - Z.to_nat size0) (l ++ [x])
  /\ uniform_inv size0 (self (snd r)).
Proof.
  intros Hpos Hinv l r.
  assert (uniform_inv size0 (self (snd r))) as Hinv'.
  { apply uniform_invoke_inv. exact Hinv. }
  split; [|split; [|exact Hinv']]; clear Hinv';
    subst r l; unfold ReplayBuffer.add_transition; cbn [ReplayBuffer.invoke];
    unfold mbind at 1, M_bind at 1; rewrite uniform_add_eq;
    destruct Hinv as (Hs & Hc & Hm & Hb); specialize (Hb ltac:(lia));
    destruct w as [[bs c [l0 ml]] i]; destruct x as [s a rw t' s2];
    unfold deque_len in *; simpl in *; subst;
    destruct (Z.ltb_spec (Z.of_nat (length l0)) size0); simpl.
  - reflexivity.
  - destruct l0; [simpl in *; lia|reflexivity].
  - replace (length l0 + 1 - Z.to_nat size0)%nat with 0%nat by lia. reflexivity.
  - destruct l0 as [|y l0]; [simpl in *; lia|]. simpl in *.
    replace (Datatypes.S (length l0 + 1) - Z.to_nat size0)%nat with 1%nat by lia.
    reflexivity.
Qed.

(** A run of [add]s on a buffer of positive capacity: every call
    succeeds and the deque holds the last [capacity] items in the order
    they were added. *)
Lemma uniform_adds_items size0 (ts : list (Transition St Act)) : forall w,
  0 < size0 -> uniform_inv size0 (self w) ->
  let l := items (ReplayBuffer.buffer (self w)) in
  let r := ReplayBuffer.run (ReplayBuffer.add_transition <$> ts) w in
  fst r = replicate (length ts) (Ok VNone)
  /\ items (ReplayBuffer.buffer (self (snd r)))
     = drop (length (l ++ ts) - Z.to_nat size0) (l ++ ts)
  /\ uniform_inv size0 (self (snd r)).
Proof.
  induction ts as [|x ts IH]; intros w Hpos Hinv l r.
  - subst r l. simpl. rewrite app_nil_r. split; [done|]. split; [|done].
    destruct Hinv as (_ & Hc & _ & Hb). specialize (Hb ltac:(lia)).
    unfold deque_len in Hc.
    replace (_ - _)%nat with 0%nat by lia. done.
  - subst r. rewrite fmap_cons. cbn [ReplayBuffer.run].
    destruct (uniform_add_items size0 x w Hpos Hinv) as (Hok & Hitems & Hinv1).
    cbv zeta in Hok, Hitems.
    destruct (ReplayBuffer.invoke (ReplayBuffer.add_transition x) w) as [r1 w1].
    simpl in Hok, Hitems, Hinv1. subst r1.
    destruct (IH w1 Hpos Hinv1) as (Hok2 & Hitems2 & Hinv2).
    cbv zeta in Hok2, Hitems2.
    destruct (ReplayBuffer.run (ReplayBuffer.add_transition <$> ts) w1) as [rs w2].
    simpl in *. split; [by f_equal|]. split; [|done].
    rewrite Hitems2, Hitems. fold l.
    destruct Hinv as (_ & Hc & _ & Hb). specialize (Hb ltac:(lia)).
    unfold deque_len in Hc. fold l in Hc.
    rewrite <- drop_app_le by (rewrite length_app; simpl; lia).
    rewrite drop_drop. rewrite <- app_assoc. simpl.
    f_equal. rewrite !length_app, length_drop, !length_app. simpl. lia.
Qed.
End UniformAdds.

(** ** The stratified buffers *)

Section Capacity.
Context `{Libraries} {St Act : Type}.

Lemma stratified_add_inv size0 s a r t' s2 (w : World (PrioritizedReplayBuffer.t St Act)) :
  stratified_inv size0 (self w) ->
  fst (PrioritizedReplayBuffer.add s a r t' s2 w) = Ok tt
  /\ stratified_inv size0 (self (snd (PrioritizedReplayBuffer.add s a r t' s2 w))).
Proof.
  intros (Hs & Hp & Hn & Hlp & Hln).
  unfold PrioritizedReplayBuffer.add, mbind, M_bind, get_self, set_self. simpl.
  destruct (PrimFloat.leb r 0); simpl; (split; [done|]);
    unfold stratified_inv; simpl; rewrite ?deque_append_maxlen;
    repeat split; try done.
  - rewrite (deque_append_len _ _ size0); [lia|done|done].
  - rewrite (deque_append_len _ _ size0); [lia|done|done].
Qed.

Lemma weighted_add_inv size0 s a r t' s2 (w : World (PrioritizedReplayBuffer2.t St Act)) :
  weighted_inv size0 (self w) ->
  fst (PrioritizedReplayBuffer2.add s a r t' s2 w) = Ok tt
  /\ weighted_inv size0 (self (snd (PrioritizedReplayBuffer2.add s a r t' s2 w))).
Proof.
  intros (Hs & Hp & Hn & Hlp & Hln).
  unfold PrioritizedReplayBuffer2.add, mbind, M_bind, get_self, set_self. simpl.
  destruct (PrimFloat.leb r 0.5); simpl; (split; [done|]);
    unfold weighted_inv; simpl; rewrite ?deque_append_maxlen;
    repeat split; try done.
  - rewrite (deque_append_len _ _ size0); [lia|done|done].
  - rewrite (deque_append_len _ _ size0); [lia|done|done].
Qed.

Lemma stratified_invoke_inv size0 c (w : World (PrioritizedReplayBuffer.t St Act)) :
  0 <= size0 -> stratified_inv size0 (self w) ->
  stratified_inv size0 (self (snd (PrioritizedReplayBuffer.invoke c w))).
Proof.
  intros H0 Hinv. destruct c; cbn [PrioritizedReplayBuffer.invoke]; unfold mbind, M_bind.
  - destruct (stratified_add_inv size0 s a r t' s2 w Hinv) as [Hok Ha].
    destruct (PrioritizedReplayBuffer.add s a r t' s2 w) as [[[]|e] w']; exact Ha.
  - exact Hinv.
  - pose proof (stratified_sample_batch_frame batch_size p_ratio w) as Hf.
    destruct (PrioritizedReplayBuffer.sample_batch batch_size p_ratio w) as [[b|e] w'];
      simpl in *; rewrite Hf; exact Hinv.
  - destruct Hinv as (Hs & Hp & Hn & Hlp & Hln).
    unfold stratified_inv, deque_len. simpl. repeat split; try done; lia.
Qed.

Lemma weighted_invoke_inv size0 c (w : World (PrioritizedReplayBuffer2.t St Act)) :
  0 <= size0 -> weighted_inv size0 (self w) ->
  weighted_inv size0 (self (snd (PrioritizedReplayBuffer2.invoke c w))).
Proof.
  intros H0 Hinv. destruct c; cbn [PrioritizedReplayBuffer2.invoke]; unfold mbind, M_bind.
  - destruct (weighted_add_inv size0 s a r t' s2 w Hinv) as [Hok Ha].
    destruct (PrioritizedReplayBuffer2.add s a r t' s2 w) as [[[]|e] w']; exact Ha.
  - exact Hinv.
  - pose proof (weighted_sample_batch_frame batch_size p_ratio w) as Hf.
    destruct (PrioritizedReplayBuffer2.sample_batch batch_size p_ratio w) as [[b|e] w'];
      simpl in *; rewrite Hf; exact Hinv.
  - destruct Hinv as (Hs & Hp & Hn & Hlp & Hln).
    unfold weighted_inv, deque_len. simpl. repeat split; try done; lia.
Qed.

Lemma stratified_run_inv size0 cs : forall (w : World (PrioritizedReplayBuffer.t St Act)),
  0 <= size0 -> stratified_inv size0 (self w) ->
  stratified_inv size0 (self (snd (PrioritizedReplayBuffer.run cs w))).
Proof.
  induction cs as [|c cs IH]; intros w H0 Hinv; simpl; [done|].
  pose proof (stratified_invoke_inv size0 c w H0 Hinv) as Hc.
  destruct (PrioritizedReplayBuffer.invoke c w) as [r w'].
  specialize (IH w' H0 Hc). destruct (PrioritizedReplayBuffer.run cs w'). exact IH.
Qed.

Lemma weighted_run_inv size0 cs : forall (w : World (PrioritizedReplayBuffer2.t St Act)),
  0 <= size0 -> weighted_inv size0 (self w) ->
  weighted_inv size0 (self (snd (PrioritizedReplayBuffer2.run cs w))).
Proof.
  induction cs as [|c cs IH]; intros w H0 Hinv; simpl; [done|].
  pose proof (weighted_invoke_inv size0 c w H0 Hinv) as Hc.
  destruct (PrioritizedReplayBuffer2.invoke c w) as [r w'].
  specialize (IH w' H0 Hc). destruct (PrioritizedReplayBuffer2.run cs w'). exact IH.
Qed.

Lemma stratified_init_inv size0 seed i :
  0 <= size0 ->
  exists w0 : World (PrioritizedReplayBuffer.t St Act),
    PrioritizedReplayBuffer.init size0 seed i = Ok w0
    /\ stratified_inv size0 (self w0)
    /\ items (PrioritizedReplayBuffer.buffer_pos (self w0)) = []
    /\ items (PrioritizedReplayBuffer.buffer_neg (self w0)) = [].
Proof.
  intros H0. unfold PrioritizedReplayBuffer.init, deque_new.
  destruct (Z.ltb_spec size0 0); [lia|]. eexists. split; [reflexivity|].
  unfold stratified_inv, deque_len. simpl. repeat split; done.
Qed.

Lemma weighted_init_inv size0 seed i :
  0 <= size0 ->
  exists w0 : World (PrioritizedReplayBuffer2.t St Act),
    PrioritizedReplayBuffer2.init size0 seed i = Ok w0
    /\ weighted_inv size0 (self w0)
    /\ items (PrioritizedReplayBuffer2.buffer_pos (self w0)) = []
    /\ items (PrioritizedReplayBuffer2.buffer_neg (self w0)) = [].
Proof.
  intros H0. unfold PrioritizedReplayBuffer2.init, deque_new.
  destruct (Z.ltb_spec size0 0); [lia|]. eexists. split; [reflexivity|].
  unfold weighted_inv, deque_len. simpl. repeat split; done.
Qed.
End Capacity.

Section Filling.
Context `{Libraries} {St Act : Type}.

Lemma stratified_run_app cs1 cs2 (w : World (PrioritizedReplayBuffer.t St Act)) :
  snd (PrioritizedReplayBuffer.run (cs1 ++ cs2) w)
  = snd (PrioritizedReplayBuffer.run cs2 (snd (PrioritizedReplayBuffer.run cs1 w))).
Proof.
  revert w. induction cs1 as [|c cs1 IH]; intros w; simpl; [done|].
  destruct (PrioritizedReplayBuffer.invoke c w) as [r w']. specialize (IH w').
  destruct (PrioritizedReplayBuffer.run (cs1 ++ cs2) w').
  destruct (PrioritizedReplayBuffer.run cs1 w'). exact IH.
Qed.

Lemma weighted_run_app cs1 cs2 (w : World (PrioritizedReplayBuffer2.t St Act)) :
  snd (PrioritizedReplayBuffer2.run (cs1 ++ cs2) w)
  = snd (PrioritizedReplayBuffer2.run cs2 (snd (PrioritizedReplayBuffer2.run cs1 w))).
Proof.
  revert w. induction cs1 as [|c cs1 IH]; intros w; simpl; [done|].
  destruct (PrioritizedReplayBuffer2.invoke c w) as [r w']. specialize (IH w').
  destruct (PrioritizedReplayBuffer2.run (cs1 ++ cs2) w').
  destruct (PrioritizedReplayBuffer2.run cs1 w'). exact IH.
Qed.

Lemma stratified_run_cons c cs (w : World (PrioritizedReplayBuffer.t St Act)) :
  snd (PrioritizedReplayBuffer.run (c :: cs) w)
  = snd (PrioritizedReplayBuffer.run cs (snd (PrioritizedReplayBuffer.invoke c w))).
Proof.
  cbn [PrioritizedReplayBuffer.run]. destruct (PrioritizedReplayBuffer.invoke c w) as [r w'].
  cbn [snd]. destruct (PrioritizedReplayBuffer.run cs w'). reflexivity.
Qed.

Lemma weighted_run_cons c cs (w : World (PrioritizedReplayBuffer2.t St Act)) :
  snd (PrioritizedReplayBuffer2.run (c :: cs) w)
  = snd (PrioritizedReplayBuffer2.run cs (snd (PrioritizedReplayBuffer2.invoke c w))).
Proof.
  cbn [PrioritizedReplayBuffer2.run]. destruct (PrioritizedReplayBuffer2.invoke c w) as [r w'].
  cbn [snd]. destruct (PrioritizedReplayBuffer2.run cs w'). reflexivity.
Qed.

Lemma stratified_invoke_add s a r t' s2 (w : World (PrioritizedReplayBuffer.t St Act)) :
  snd (PrioritizedReplayBuffer.invoke (PrioritizedReplayBuffer.Add s a r t' s2) w)
  = snd (PrioritizedReplayBuffer.add s a r t' s2 w).
Proof.
  cbn [PrioritizedReplayBuffer.invoke]. unfold mbind at 1, M_bind at 1.
  destruct (PrioritizedReplayBuffer.add s a r t' s2 w) as [[[]|e] w']; reflexivity.
Qed.

Lemma weighted_invoke_add s a r t' s2 (w : World (PrioritizedReplayBuffer2.t St Act)) :
  snd (PrioritizedReplayBuffer2.invoke (PrioritizedReplayBuffer2.Add s a r t' s2) w)
  = snd (PrioritizedReplayBuffer2.add s a r t' s2 w).
Proof.
  cbn [PrioritizedReplayBuffer2.invoke]. unfold mbind at 1, M_bind at 1.
  destruct (PrioritizedReplayBuffer2.add s a r t' s2 w) as [[[]|e] w']; reflexivity.
Qed.

(** Adding the same transition [k] times fills its partition and leaves
    the other one alone. *)
Lemma stratified_fill size0 s a r t' s2 k :
  forall (w : World (PrioritizedReplayBuffer.t St Act)),
  stratified_inv size0 (self w) ->
  let w' := snd (PrioritizedReplayBuffer.run
                   (replicate k (PrioritizedReplayBuffer.Add s a r t' s2)) w) in
  stratified_inv size0 (self w')
  /\ (if PrimFloat.leb r 0 then
        deque_len (PrioritizedReplayBuffer.buffer_neg (self w'))
          = Z.min (deque_len (PrioritizedReplayBuffer.buffer_neg (self w)) + Z.of_nat k) size0
        /\ PrioritizedReplayBuffer.buffer_pos (self w')
           = PrioritizedReplayBuffer.buffer_pos (self w)
      else
        deque_len (PrioritizedReplayBuffer.buffer_pos (self w'))
          = Z.min (deque_len (PrioritizedReplayBuffer.buffer_pos (self w)) + Z.of_nat k) size0
        /\ PrioritizedReplayBuffer.buffer_neg (self w')
           = PrioritizedReplayBuffer.buffer_neg (self w)).
Proof.
  induction k as [|k IH]; intros w Hinv.
  - simpl. split; [done|]. destruct Hinv as (_ & _ & _ & ? & ?).
    destruct (PrimFloat.leb r 0); split; try done; lia.
  - cbn [replicate]. rewrite stratified_run_cons, stratified_invoke_add.
    destruct (stratified_add_inv size0 s a r t' s2 w Hinv) as [_ Ha].
    specialize (IH _ Ha). cbv zeta in IH. destruct IH as [Hinv2 IH].
    split; [done|].
    destruct Hinv as (_ & Hp & Hn & Hlp & Hln). destruct Ha as (_ & _ & _ & Hlp1 & Hln1).
    revert IH Hlp1 Hln1.
    set (w2 := snd (PrioritizedReplayBuffer.run _ _)). clearbody w2.
    unfold PrioritizedReplayBuffer.add, mbind, M_bind, get_self, set_self. simpl.
    destruct (PrimFloat.leb r 0); simpl; intros [IH1 IH2] Hlp1 Hln1;
      (split; [|done]); rewrite IH1;
      rewrite (deque_append_len _ _ size0) by done; lia.
Qed.

Lemma weighted_fill size0 s a r t' s2 k :
  forall (w : World (PrioritizedReplayBuffer2.t St Act)),
  weighted_inv size0 (self w) ->
  let w' := snd (PrioritizedReplayBuffer2.run
                   (replicate k (PrioritizedReplayBuffer2.Add s a r t' s2)) w) in
  weighted_inv size0 (self w')
  /\ (if PrimFloat.leb r 0.5 then
        deque_len (PrioritizedReplayBuffer2.buffer_neg (self w'))
          = Z.min (deque_len (PrioritizedReplayBuffer2.buffer_neg (self w)) + Z.of_nat k) size0
        /\ PrioritizedReplayBuffer2.buffer_pos (self w')
           = PrioritizedReplayBuffer2.buffer_pos (self w)
      else
        deque_len (PrioritizedReplayBuffer2.buffer_pos (self w'))
          = Z.min (deque_len (PrioritizedReplayBuffer2.buffer_pos (self w)) + Z.of_nat k) size0
        /\ PrioritizedReplayBuffer2.buffer_neg (self w')
           = PrioritizedReplayBuffer2.buffer_neg (self w)).
Proof.
  induction k as [|k IH]; intros w Hinv.
  - simpl. split; [done|]. destruct Hinv as (_ & _ & _ & ? & ?).
    destruct (PrimFloat.leb r 0.5); split; try done; lia.
  - cbn [replicate]. rewrite weighted_run_cons, weighted_invoke_add.
    destruct (weighted_add_inv size0 s a r t' s2 w Hinv) as [_ Ha].
    specialize (IH _ Ha). cbv zeta in IH. destruct IH as [Hinv2 IH].
    split; [done|].
    destruct Hinv as (_ & Hp & Hn & Hlp & Hln). destruct Ha as (_ & _ & _ & Hlp1 & Hln1).
    revert IH Hlp1 Hln1.
    set (w2 := snd (PrioritizedReplayBuffer2.run _ _)). clearbody w2.
    unfold PrioritizedReplayBuffer2.add, mbind, M_bind, get_self, set_self. simpl.
    destruct (PrimFloat.leb r 0.5); simpl; intros [IH1 IH2] Hlp1 Hln1;
      (split; [|done]); rewrite IH1;
      rewrite (deque_append_len _ _ size0) by done; lia.
Qed.
End Filling.

(** ** What the sibling classes do *)

Section Siblings.
Context `{Libraries} {St Act : Type}.

(** The stratified buffers clear the deques they own. *)
Lemma stratified_clear_eq (w : World (PrioritizedReplayBuffer.t St Act)) :
  PrioritizedReplayBuffer.clear w
  = (Ok tt,
     mkWorld (PrioritizedReplayBuffer.mk
                (PrioritizedReplayBuffer.buffer_size (self w))
                (deque_clear (PrioritizedReplayBuffer.buffer_pos (self w)))
                (deque_clear (PrioritizedReplayBuffer.buffer_neg (self w))))
             (interp w)).
Proof. reflexivity. Qed.

Lemma weighted_clear_eq (w : World (PrioritizedReplayBuffer2.t St Act)) :
  PrioritizedReplayBuffer2.clear w
  = (Ok tt,
     mkWorld (PrioritizedReplayBuffer2.mk
                (PrioritizedReplayBuffer2.buffer_size (self w))
                (deque_clear (PrioritizedReplayBuffer2.buffer_pos (self w)))
                (deque_clear (PrioritizedReplayBuffer2.buffer_neg (self w))))
             (interp w)).
Proof. reflexivity. Qed.

(** The stratified buffers take capacity 0: [add] succeeds and stores nothing. *)
Lemma stratified_add_at_capacity_zero
    (seed : Z) (i : Interp) (s : St) (a : Act) (r : float) (t' : bool) (s2 : St) :
  exists w0, PrioritizedReplayBuffer.init 0 seed i = Ok w0
    /\ PrioritizedReplayBuffer.add s a r t' s2 w0 = (Ok tt, w0).
Proof.
  eexists. split; [reflexivity|].
  unfold PrioritizedReplayBuffer.add, mbind, M_bind, get_self, set_self. simpl.
  destruct (PrimFloat.leb r 0); reflexivity.
Qed.

Lemma weighted_add_at_capacity_zero
    (seed : Z) (i : Interp) (s : St) (a : Act) (r : float) (t' : bool) (s2 : St) :
  exists w0, PrioritizedReplayBuffer2.init 0 seed i = Ok w0
    /\ PrioritizedReplayBuffer2.add s a r t' s2 w0 = (Ok tt, w0).
Proof.
  eexists. split; [reflexivity|].
  unfold PrioritizedReplayBuffer2.add, mbind, M_bind, get_self, set_self. simpl.
  destruct (PrimFloat.leb r 0.5); reflexivity.
Qed.

Lemma uniform_size_eq (w : World (ReplayBuffer.t St Act)) :
  ReplayBuffer.size w = (Ok (ReplayBuffer.count (self w)), w).
Proof. reflexivity. Qed.

Lemma stratified_size_eq (w : World (PrioritizedReplayBuffer.t St Act)) :
  PrioritizedReplayBuffer.size w
  = (Ok (deque_len (PrioritizedReplayBuffer.buffer_pos (self w))
         + deque_len (PrioritizedReplayBuffer.buffer_neg (self w))), w).
Proof. reflexivity. Qed.

Lemma weighted_size_eq (w : World (PrioritizedReplayBuffer2.t St Act)) :
  PrioritizedReplayBuffer2.size w
  = (Ok (deque_len (PrioritizedReplayBuffer2.buffer_pos (self w))
         + deque_len (PrioritizedReplayBuffer2.buffer_neg (self w))), w).
Proof. reflexivity. Qed.
End Siblings.

(** On the rewards [1.0, 2.0, 3.0] the code's softmax and the stabilized
    one agree within 1e-9, and the code's weights sum to 1 within 1e-9. *)
Lemma softmax_example_within_tolerance :
  let w := softmax [1%float; 2%float; 3%float] in
  let v := softmax_stabilized [1%float; 2%float; 3%float] in
  forallb (fun '(x, y) => PrimFloat.ltb (PrimFloat.abs (x - y) * 1000000000) 1%float)
          (zip w v) = true
  /\ PrimFloat.ltb (PrimFloat.abs (np_sum w - 1) * 1000000000) 1%float = true.
Proof. split; vm_compute; reflexivity. Qed.

(** ** Bounded deques keep the last items *)

Section KeepLast.
Context {T : Type}.
Implicit Types (l k : list T) (d : deque T).

Lemma keep_last_length n l :
  Z.of_nat (length (keep_last n l)) = Z.min (Z.of_nat (length l)) (Z.max n 0).
Proof. unfold keep_last. rewrite length_drop. lia. Qed.

Lemma keep_last_all n l : Z.of_nat (length l) <= n -> keep_last n l = l.
Proof. intros Hle. unfold keep_last. replace (_ - _)%nat with 0%nat by lia. done. Qed.

Lemma keep_last_app n l k :
  keep_last n (keep_last n l ++ k) = keep_last n (l ++ k).
Proof.
  unfold keep_last.
  rewrite <- (drop_app_le l k) by lia.
  rewrite drop_drop. f_equal.
  rewrite length_drop, !length_app. lia.
Qed.

Lemma keep_last_Forall (P : T -> Prop) n l : Forall P l -> Forall P (keep_last n l).
Proof. apply Forall_drop. Qed.

(** An append to a bounded deque within its bound. *)
Lemma deque_append_items d x n :
  maxlen d = Some n -> deque_len d <= n ->
  items (deque_append d x) = keep_last n (items d ++ [x]).
Proof.
  unfold deque_append, deque_len, keep_last. intros -> Hle.
  rewrite length_app. simpl.
  destruct (Z.ltb_spec n (Z.of_nat (length (items d) + 1))); simpl.
  - replace (length (items d) + 1 - Z.to_nat n)%nat with 1%nat by lia. done.
  - replace (length (items d) + 1 - Z.to_nat n)%nat with 0%nat by lia. done.
Qed.

(** Whatever its bound, a deque after an append holds a suffix of its
    items and the new one. *)
Lemma deque_append_Forall (P : T -> Prop) d x :
  Forall P (items d) -> P x -> Forall P (items (deque_append d x)).
Proof.
  intros Hd Hx. assert (Forall P (items d ++ [x])) as Hall.
  { apply Forall_app. split; [done|]. by constructor. }
  unfold deque_append. destruct (maxlen d) as [n|]; [|done].
  destruct (_ <? _); simpl; [by apply Forall_drop|done].
Qed.
End KeepLast.

(** ** numpy's shuffle *)

Section Shuffle.
Context {T : Type}.
Implicit Types (l : list T).




End Shuffle.


Section TakeIndices.
Context {T : Type}.

End TakeIndices.


(** ** Contents of the stratified buffers *)

Section StratifiedContents.
Context `{Libraries} {St Act : Type}.

Lemma stratified_invoke_sorted c (w : World (PrioritizedReplayBuffer.t St Act)) :
  Forall (fun x => nonpositive x = false)
         (items (PrioritizedReplayBuffer.buffer_pos (self w))) ->
  Forall (fun x => nonpositive x = true)
         (items (PrioritizedReplayBuffer.buffer_neg (self w))) ->
  let w' := snd (PrioritizedReplayBuffer.invoke c w) in
  Forall (fun x => nonpositive x = false)
         (items (PrioritizedReplayBuffer.buffer_pos (self w')))
  /\ Forall (fun x => nonpositive x = true)
            (items (PrioritizedReplayBuffer.buffer_neg (self w'))).
Proof.
  intros Hp Hn w'. subst w'. destruct c.
  - rewrite stratified_invoke_add.
    unfold PrioritizedReplayBuffer.add, mbind, M_bind, get_self, set_self. simpl.
    destruct (PrimFloat.leb r 0) eqn:Hr; simpl; (split; [|]); try done;
      apply deque_append_Forall; done.
  - done.
  - cbn [PrioritizedReplayBuffer.invoke]. unfold mbind, M_bind.
    pose proof (stratified_sample_batch_frame batch_size p_ratio w) as Hf.
    destruct (PrioritizedReplayBuffer.sample_batch batch_size p_ratio w) as [[b|e] w'];
      simpl in *; rewrite Hf; done.
  - cbn [PrioritizedReplayBuffer.invoke]. unfold mbind, M_bind.
    rewrite stratified_clear_eq. simpl. split; constructor.
Qed.

Lemma weighted_invoke_sorted c (w : World (PrioritizedReplayBuffer2.t St Act)) :
  Forall (fun x => at_most_half x = false)
         (items (PrioritizedReplayBuffer2.buffer_pos (self w))) ->
  Forall (fun x => at_most_half x = true)
         (items (PrioritizedReplayBuffer2.buffer_neg (self w))) ->
  let w' := snd (PrioritizedReplayBuffer2.invoke c w) in
  Forall (fun x => at_most_half x = false)
         (items (PrioritizedReplayBuffer2.buffer_pos (self w')))
  /\ Forall (fun x => at_most_half x = true)
            (items (PrioritizedReplayBuffer2.buffer_neg (self w'))).
Proof.
  intros Hp Hn w'. subst w'. destruct c.
  - rewrite weighted_invoke_add.
    unfold PrioritizedReplayBuffer2.add, mbind, M_bind, get_self, set_self. simpl.
    destruct (PrimFloat.leb r 0.5) eqn:Hr; simpl; (split; [|]); try done;
      apply deque_append_Forall; done.
  - done.
  - cbn [PrioritizedReplayBuffer2.invoke]. unfold mbind, M_bind.
    pose proof (weighted_sample_batch_frame batch_size p_ratio w) as Hf.
    destruct (PrioritizedReplayBuffer2.sample_batch batch_size p_ratio w) as [[b|e] w'];
      simpl in *; rewrite Hf; done.
  - cbn [PrioritizedReplayBuffer2.invoke]. unfold mbind, M_bind.
    rewrite weighted_clear_eq. simpl. split; constructor.
Qed.

Lemma stratified_run_sorted cs : forall w : World (PrioritizedReplayBuffer.t St Act),
  Forall (fun x => nonpositive x = false)
         (items (PrioritizedReplayBuffer.buffer_pos (self w))) ->
  Forall (fun x => nonpositive x = true)
         (items (PrioritizedReplayBuffer.buffer_neg (self w))) ->
  let w' := snd (PrioritizedReplayBuffer.run cs w) in
  Forall (fun x => nonpositive x = false)
         (items (PrioritizedReplayBuffer.buffer_pos (self w')))
  /\ Forall (fun x => nonpositive x = true)
            (items (PrioritizedReplayBuffer.buffer_neg (self w'))).
Proof.
  induction cs as [|c cs IH]; intros w Hp Hn; [done|].
  cbv zeta. rewrite stratified_run_cons.
  destruct (stratified_invoke_sorted c w Hp Hn) as [Hp' Hn']. by apply IH.
Qed.

Lemma weighted_run_sorted cs : forall w : World (PrioritizedReplayBuffer2.t St Act),
  Forall (fun x => at_most_half x = false)
         (items (PrioritizedReplayBuffer2.buffer_pos (self w))) ->
  Forall (fun x => at_most_half x = true)
         (items (PrioritizedReplayBuffer2.buffer_neg (self w))) ->
  let w' := snd (PrioritizedReplayBuffer2.run cs w) in
  Forall (fun x => at_most_half x = false)
         (items (PrioritizedReplayBuffer2.buffer_pos (self w')))
  /\ Forall (fun x => at_most_half x = true)
            (items (PrioritizedReplayBuffer2.buffer_neg (self w'))).
Proof.
  induction cs as [|c cs IH]; intros w Hp Hn; [done|].
  cbv zeta. rewrite weighted_run_cons.
  destruct (weighted_invoke_sorted c w Hp Hn) as [Hp' Hn']. by apply IH.
Qed.

Lemma stratified_run_cons_fst c cs (w : World (PrioritizedReplayBuffer.t St Act)) :
  fst (PrioritizedReplayBuffer.run (c :: cs) w)
  = fst (PrioritizedReplayBuffer.invoke c w)
    :: fst (PrioritizedReplayBuffer.run cs (snd (PrioritizedReplayBuffer.invoke c w))).
Proof.
  cbn [PrioritizedReplayBuffer.run]. destruct (PrioritizedReplayBuffer.invoke c w) as [r w'].
  cbn [fst snd]. destruct (PrioritizedReplayBuffer.run cs w'). reflexivity.
Qed.

Lemma weighted_run_cons_fst c cs (w : World (PrioritizedReplayBuffer2.t St Act)) :
  fst (PrioritizedReplayBuffer2.run (c :: cs) w)
  = fst (PrioritizedReplayBuffer2.invoke c w)
    :: fst (PrioritizedReplayBuffer2.run cs (snd (PrioritizedReplayBuffer2.invoke c w))).
Proof.
  cbn [PrioritizedReplayBuffer2.run]. destruct (PrioritizedReplayBuffer2.invoke c w) as [r w'].
  cbn [fst snd]. destruct (PrioritizedReplayBuffer2.run cs w'). reflexivity.
Qed.

(** One [add] of a stratified buffer: it succeeds and appends to the
    partition the reward selects. *)
Lemma stratified_add_step size0 x (w : World (PrioritizedReplayBuffer.t St Act)) :
  stratified_inv size0 (self w) ->
  let r := PrioritizedReplayBuffer.invoke (stratified_add_call x) w in
  fst r = Ok VNone
  /\ stratified_inv size0 (self (snd r))
  /\ items (PrioritizedReplayBuffer.buffer_pos (self (snd r)))
     = keep_last size0 (items (PrioritizedReplayBuffer.buffer_pos (self w))
                        ++ List.filter (fun y => negb (nonpositive y)) [x])
  /\ items (PrioritizedReplayBuffer.buffer_neg (self (snd r)))
     = keep_last size0 (items (PrioritizedReplayBuffer.buffer_neg (self w))
                        ++ List.filter nonpositive [x]).
Proof.
  intros Hinv r.
  destruct (stratified_add_inv size0 (state x) (action x) (reward x) (terminal x)
              (next_state x) w Hinv) as [Hok Hinv'].
  subst r. unfold stratified_add_call.
  split; [|split].
  - cbn [PrioritizedReplayBuffer.invoke]. unfold mbind at 1, M_bind at 1.
    destruct (PrioritizedReplayBuffer.add _ _ _ _ _ w) as [[[]|e] w']; [done|discriminate].
  - rewrite stratified_invoke_add. exact Hinv'.
  - rewrite stratified_invoke_add. clear Hok Hinv'.
    destruct Hinv as (_ & Hp & Hn & Hlp & Hln).
    unfold PrioritizedReplayBuffer.add, mbind, M_bind, get_self, set_self, nonpositive.
    destruct x as [s a rw t' s2]. simpl.
    destruct (PrimFloat.leb rw 0); simpl; rewrite ?app_nil_r;
      rewrite ?(deque_append_items _ _ size0) by done;
      (split; first [done | symmetry; apply keep_last_all; done]).
Qed.

Lemma weighted_add_step size0 x (w : World (PrioritizedReplayBuffer2.t St Act)) :
  weighted_inv size0 (self w) ->
  let r := PrioritizedReplayBuffer2.invoke (weighted_add_call x) w in
  fst r = Ok VNone
  /\ weighted_inv size0 (self (snd r))
  /\ items (PrioritizedReplayBuffer2.buffer_pos (self (snd r)))
     = keep_last size0 (items (PrioritizedReplayBuffer2.buffer_pos (self w))
                        ++ List.filter (fun y => negb (at_most_half y)) [x])
  /\ items (PrioritizedReplayBuffer2.buffer_neg (self (snd r)))
     = keep_last size0 (items (PrioritizedReplayBuffer2.buffer_neg (self w))
                        ++ List.filter at_most_half [x]).
Proof.
  intros Hinv r.
  destruct (weighted_add_inv size0 (state x) (action x) (reward x) (terminal x)
              (next_state x) w Hinv) as [Hok Hinv'].
  subst r. unfold weighted_add_call.
  split; [|split].
  - cbn [PrioritizedReplayBuffer2.invoke]. unfold mbind at 1, M_bind at 1.
    destruct (PrioritizedReplayBuffer2.add _ _ _ _ _ w) as [[[]|e] w']; [done|discriminate].
  - rewrite weighted_invoke_add. exact Hinv'.
  - rewrite weighted_invoke_add. clear Hok Hinv'.
    destruct Hinv as (_ & Hp & Hn & Hlp & Hln).
    unfold PrioritizedReplayBuffer2.add, mbind, M_bind, get_self, set_self, at_most_half.
    destruct x as [s a rw t' s2]. simpl.
    destruct (PrimFloat.leb rw 0.5); simpl; rewrite ?app_nil_r;
      rewrite ?(deque_append_items _ _ size0) by done;
      (split; first [done | symmetry; apply keep_last_all; done]).
Qed.

Lemma stratified_adds_items size0 (ts : list (Transition St Act)) :
  forall w : World (PrioritizedReplayBuffer.t St Act),
  stratified_inv size0 (self w) ->
  let r := PrioritizedReplayBuffer.run (stratified_add_call <$> ts) w in
  fst r = replicate (length ts) (Ok VNone)
  /\ items (PrioritizedReplayBuffer.buffer_pos (self (snd r)))
     = keep_last size0 (items (PrioritizedReplayBuffer.buffer_pos (self w))
                        ++ List.filter (fun y => negb (nonpositive y)) ts)
  /\ items (PrioritizedReplayBuffer.buffer_neg (self (snd r)))
     = keep_last size0 (items (PrioritizedReplayBuffer.buffer_neg (self w))
                        ++ List.filter nonpositive ts).
Proof.
  induction ts as [|x ts IH]; intros w Hinv r; subst r.
  - destruct Hinv as (_ & _ & _ & Hlp & Hln). unfold deque_len in Hlp, Hln.
    simpl. rewrite !app_nil_r. split; [done|].
    split; symmetry; apply keep_last_all; done.
  - rewrite fmap_cons, stratified_run_cons, stratified_run_cons_fst.
    destruct (stratified_add_step size0 x w Hinv) as (Hok & Hinv' & Hp & Hn).
    cbv zeta in Hok, Hinv', Hp, Hn.
    destruct (IH _ Hinv') as (Hoks & Hps & Hns). cbv zeta in Hoks, Hps, Hns.
    rewrite Hok, Hoks, Hps, Hns, Hp, Hn. split; [done|].
    rewrite !keep_last_app, <- !app_assoc. simpl.
    destruct (nonpositive x); done.
Qed.

Lemma weighted_adds_items size0 (ts : list (Transition St Act)) :
  forall w : World (PrioritizedReplayBuffer2.t St Act),
  weighted_inv size0 (self w) ->
  let r := PrioritizedReplayBuffer2.run (weighted_add_call <$> ts) w in
  fst r = replicate (length ts) (Ok VNone)
  /\ items (PrioritizedReplayBuffer2.buffer_pos (self (snd r)))
     = keep_last size0 (items (PrioritizedReplayBuffer2.buffer_pos (self w))
                        ++ List.filter (fun y => negb (at_most_half y)) ts)
  /\ items (PrioritizedReplayBuffer2.buffer_neg (self (snd r)))
     = keep_last size0 (items (PrioritizedReplayBuffer2.buffer_neg (self w))
                        ++ List.filter at_most_half ts).
Proof.
  induction ts as [|x ts IH]; intros w Hinv r; subst r.
  - destruct Hinv as (_ & _ & _ & Hlp & Hln). unfold deque_len in Hlp, Hln.
    simpl. rewrite !app_nil_r. split; [done|].
    split; symmetry; apply keep_last_all; done.
  - rewrite fmap_cons, weighted_run_cons, weighted_run_cons_fst.
    destruct (weighted_add_step size0 x w Hinv) as (Hok & Hinv' & Hp & Hn).
    cbv zeta in Hok, Hinv', Hp, Hn.
    destruct (IH _ Hinv') as (Hoks & Hps & Hns). cbv zeta in Hoks, Hps, Hns.
    rewrite Hok, Hoks, Hps, Hns, Hp, Hn. split; [done|].
    rewrite !keep_last_app, <- !app_assoc. simpl.
    destruct (at_most_half x); done.
Qed.
End StratifiedContents.

(** ** The word index *)

Lemma indexer_ok_empty : indexer_ok ∅.
Proof. split; intros *; rewrite lookup_empty; discriminate. Qed.

(** One call of [getIndex] on a well-formed dictionary. *)
Lemma getIndex_step word (indexer : gmap string Z) :
  indexer_ok indexer ->
  exists i indexer',
    getIndex word indexer = (Some i, indexer')
    /\ indexer' !! word = Some i
    /\ indexer ⊆ indexer'
    /\ indexer_ok indexer'
    /\ (forall j, indexer !! word = Some j -> i = j /\ indexer' = indexer)
    /\ (indexer !! word = None ->
        i = Z.of_nat (size indexer) + 1 /\ size indexer' = Datatypes.S (size indexer)).
Proof.
  intros [Hrange Hinj]. unfold getIndex. cbv zeta.
  destruct (indexer !! word) as [j|] eqn:Hw.
  - rewrite bool_decide_eq_true_2 by eauto. rewrite Hw.
    exists j, indexer. split; [done|]. split; [done|]. split; [done|].
    split; [by split|]. split; [|done].
    intros k [= <-]. done.
  - rewrite bool_decide_eq_false_2 by (intros [? ?]; discriminate).
    rewrite lookup_insert_eq.
    eexists _, _. split; [reflexivity|]. split; [apply lookup_insert_eq|].
    split; [by apply insert_subseteq|]. split; [|split; [done|]].
    + split.
      * intros w k Hk. rewrite map_size_insert_None by done.
        destruct (decide (w = word)) as [->|Hne].
        -- rewrite lookup_insert_eq in Hk. injection Hk as <-. lia.
        -- rewrite lookup_insert_ne in Hk by done. specialize (Hrange w k Hk). lia.
      * intros w1 w2 k H1 H2.
        destruct (decide (w1 = word)) as [->|Hne1], (decide (w2 = word)) as [->|Hne2];
          try done.
        -- rewrite lookup_insert_eq in H1. rewrite lookup_insert_ne in H2 by done.
           injection H1 as <-. specialize (Hrange w2 _ H2). lia.
        -- rewrite lookup_insert_eq in H2. rewrite lookup_insert_ne in H1 by done.
           injection H2 as <-. specialize (Hrange w1 _ H1). lia.
        -- rewrite lookup_insert_ne in H1, H2 by done. eauto.
    + intros _. split; [done|]. by apply map_size_insert_None.
Qed.

Lemma map_getIndex_spec words : forall indexer : gmap string Z,
  indexer_ok indexer ->
  exists seq indexer',
    map_getIndex words indexer = (Some seq, indexer')
    /\ indexer ⊆ indexer'
    /\ indexer_ok indexer'
    /\ Forall2 (fun word i => indexer' !! word = Some i) words seq.
Proof.
  induction words as [|word words IH]; intros indexer Hok; cbn [map_getIndex].
  - exists [], indexer. split; [done|]. split; [done|]. split; [done|constructor].
  - destruct (getIndex_step word indexer Hok) as (i & ix1 & -> & Hi & Hsub & Hok1 & _).
    destruct (IH ix1 Hok1) as (seq & ix2 & -> & Hsub2 & Hok2 & Hall).
    exists (i :: seq), ix2. split; [done|]. split; [by etrans|]. split; [done|].
    constructor; [|done]. eapply lookup_weaken; eauto.
Qed.

(** ** Histories *)

Section HistoryFacts.
Context {T : Type}.
Implicit Types (d : deque T) (l : list T).

Lemma last_drop l k : (k < length l)%nat -> last (drop k l) = last l.
Proof.
  intros Hk. rewrite !last_lookup, lookup_drop, length_drop. f_equal. lia.
Qed.

Lemma deque_appends_bounded l : forall d n,
  maxlen d = Some n -> deque_len d <= n ->
  let d' := foldl deque_append d l in
  maxlen d' = Some n
  /\ deque_len d' <= n
  /\ items d' = keep_last n (items d ++ l).
Proof.
  induction l as [|x l IH]; intros d n Hm Hle; simpl.
  - rewrite app_nil_r. unfold deque_len in Hle. rewrite keep_last_all by done. done.
  - destruct (IH (deque_append d x) n) as (Hm' & Hle' & Hitems).
    + by rewrite deque_append_maxlen.
    + rewrite (deque_append_len d x n) by done. lia.
    + split; [done|]. split; [done|].
      rewrite Hitems, (deque_append_items d x n) by done.
      rewrite keep_last_app, <- app_assoc. done.
Qed.

Lemma deque_from_bounded l n :
  0 <= n ->
  exists d, deque_from l (Some n) = Ok d
    /\ maxlen d = Some n /\ items d = keep_last n l.
Proof.
  intros Hn. unfold deque_from, deque_new.
  destruct (Z.ltb_spec n 0); [lia|]. eexists. split; [reflexivity|].
  destruct (deque_appends_bounded l (mkDeque [] (Some n)) n) as (Hm & _ & Hitems);
    [done|unfold deque_len; simpl; lia|].
  split; [exact Hm|exact Hitems].
Qed.
End HistoryFacts.

(** Words the dictionary knows are looked up, and the dictionary stays as it is. *)
Lemma map_getIndex_known words : forall (indexer : gmap string Z) seq,
  Forall2 (fun word i => indexer !! word = Some i) words seq ->
  map_getIndex words indexer = (Some seq, indexer).
Proof.
  induction words as [|word words IH]; intros indexer seq Hall;
    inversion Hall as [|? i ? seq' Hi Hall']; subst; cbn [map_getIndex]; [done|].
  unfold getIndex. rewrite bool_decide_eq_true_2 by eauto. rewrite Hi.
  rewrite (IH indexer seq' Hall'). done.
Qed.

Lemma initHist_items (state : list Z) (hist_size : Z) (null : bool) :
  0 < hist_size ->
  exists hist,
    initHist state hist_size null = Ok hist
    /\ maxlen hist = Some hist_size
    /\ items hist
       = (if null then replicate (Z.to_nat hist_size - 1) (replicate (length state) 0) ++ [state]
          else replicate (Z.to_nat hist_size) state).
Proof.
  intros Hpos. unfold initHist.
  set (zeros := replicate (length state) 0).
  destruct (Z.to_nat hist_size) as [|n] eqn:Hn; [lia|].
  replace (Datatypes.S n - 1)%nat with n by lia.
  assert (exists states,
            (if null then list_setitem (replicate (Datatypes.S n) zeros) (-1) state
             else Ok (replicate (Datatypes.S n) state)) = Ok states
            /\ states = (if null then replicate n zeros ++ [state]
                         else replicate (Datatypes.S n) state)) as (states & -> & Hstates).
  { destruct null; [|eauto].
    unfold list_setitem. rewrite length_replicate.
    change (-1 <? 0) with true. cbv iota.
    destruct (Z.ltb_spec (-1 + Z.of_nat (Datatypes.S n)) 0); [lia|].
    destruct (Z.leb_spec (Z.of_nat (Datatypes.S n)) (-1 + Z.of_nat (Datatypes.S n))); [lia|].
    cbn [orb]. eexists. split; [reflexivity|].
    rewrite replicate_S_end.
    replace (Z.to_nat (-1 + Z.of_nat (Datatypes.S n)))
      with (length (replicate n zeros) + 0)%nat by (rewrite length_replicate; lia).
    rewrite insert_app_r. done. }
  assert (length states = Datatypes.S n) as Hlen.
  { rewrite Hstates. destruct null; rewrite ?length_app, !length_replicate; simpl; lia. }
  destruct (deque_from_bounded states hist_size ltac:(lia)) as (hist & -> & Hm & Hitems).
  rewrite keep_last_all in Hitems by lia.
  exists hist. rewrite Hitems, Hstates. done.
Qed.

(** * The claims *)



(** C2. [softmax] exponentiates the rewards as they are.  On the single
    reward 1000.0 the exponential overflows and the weight is NaN, where the
    stabilized softmax of the specification gives the weight 1. *)
Theorem softmax_is_not_stabilized :
  softmax [1000%float] = [nan] /\ softmax_stabilized [1000%float] = [1%float].
Proof. split; vm_compute; reflexivity. Qed.

(** What follows for a batch, under the example interpreter: with one stored
    transition of reward 1000.0 the weighted draw is refused. *)
Lemma weighted_sample_batch_on_large_reward :
  let w := mkWorld (PrioritizedReplayBuffer2.mk 10
                      (mkDeque [Example.tr 1 1000%float] (Some 10))
                      (mkDeque [Example.tr 2 0%float] (Some 10))) Example.fresh in
  PrioritizedReplayBuffer2.pr_rewards (self w) = [nan]
  /\ fst (PrioritizedReplayBuffer2.sample_batch (H:=Example.libraries) 4 0.25%float w)
     = Raise ValueError.
Proof. split; vm_compute; reflexivity. Qed.

(** C3. [PrioritizedReplayBuffer2.__init__] seeds [random], but
    [sample_batch] draws from [numpy.random]: two buffers built with the same
    seed and given the same calls return different batches when numpy's
    generator is in different states. *)
Theorem weighted_batches_depend_on_numpy_state `{Libraries} :
  exists w1 w2,
    PrioritizedReplayBuffer2.init 10 123 Example.fresh = Ok w1
    /\ PrioritizedReplayBuffer2.init 10 123 Example.later = Ok w2
    /\ self w1 = self w2
    /\ py_random (interp w1) = py_random (interp w2)
    /\ fst (PrioritizedReplayBuffer2.run Example.weighted_calls w1)
       <> fst (PrioritizedReplayBuffer2.run Example.weighted_calls w2).
Proof.
  do 2 eexists. repeat split; try reflexivity.
  intros Heq. vm_compute in Heq. discriminate Heq.
Qed.

(** C4. A [ReplayBuffer] built with capacity 0 raises [IndexError] on its
    first [add]: the count is not below the capacity, so the code pops from
    the empty deque. *)
Theorem uniform_add_raises_at_capacity_zero `{Libraries} {St Act : Type}
    (seed : Z) (i : Interp) (s : St) (a : Act) (r : float) (t' : bool) (s2 : St) :
  exists w0, ReplayBuffer.init 0 seed i = Ok w0
    /\ ReplayBuffer.add s a r t' s2 w0 = (Raise IndexError, w0).
Proof.
  destruct (uniform_init_inv (St:=St) (Act:=Act) 0 seed i) as (w0 & Hinit & Hinv & Hempty).
  exists w0. split; [exact Hinit|].
  rewrite uniform_add_eq. cbv zeta.
  destruct Hinv as (Hs & Hc & _). rewrite Hs, Hc.
  unfold deque_len. rewrite Hempty. reflexivity.
Qed.

(** C5. [last_n_batch] returns the whole deque when more is asked than is
    stored, and otherwise subscripts the deque with a slice, which raises
    [TypeError]: a request for at most [size()] transitions never returns a
    batch. *)
Theorem uniform_last_n_batch_outcome `{Libraries} {St Act : Type}
    (w : World (ReplayBuffer.t St Act)) (n : Z) :
  (ReplayBuffer.count (self w) < n ->
     ReplayBuffer.last_n_batch n w
     = (Ok (columns (items (ReplayBuffer.buffer (self w)))), w))
  /\ (n <= ReplayBuffer.count (self w) ->
     ReplayBuffer.last_n_batch n w = (Raise TypeError, w)).
Proof.
  rewrite uniform_last_n_batch_eq.
  destruct (Z.ltb_spec (ReplayBuffer.count (self w)) n); split; intros; first [reflexivity|lia].
Qed.

(** C6. [ReplayBuffer.clear] reads [self.deque], an attribute no instance
    has: on every buffer it raises [AttributeError] and changes nothing, so
    neither the deque is emptied nor the count reset. *)
Theorem uniform_clear_raises `{Libraries} {St Act : Type}
    (w : World (ReplayBuffer.t St Act)) :
  ReplayBuffer.clear w = (Raise AttributeError, w)
  /\ ReplayBuffer.getattr (self w) "deque" = Raise AttributeError
  /\ fst (ReplayBuffer.size (snd (ReplayBuffer.clear w))) = fst (ReplayBuffer.size w)
  /\ items (ReplayBuffer.buffer (self (snd (ReplayBuffer.clear w))))
     = items (ReplayBuffer.buffer (self w)).
Proof.
  rewrite uniform_clear_eq. repeat split.
Qed.



(** C8. A buffer built with a positive capacity stays within it whatever is
    called: a [ReplayBuffer] never holds more than [buffer_size]
    transitions, and each partition of the two stratified buffers never
    holds more than [buffer_size], so their [size()] is at most twice the
    capacity, a bound that adds do reach. *)
Theorem capacity_invariant `{Libraries} {St Act : Type}
    (buffer_size seed : Z) (i : Interp) (s : St) (a : Act) :
  0 < buffer_size ->
  (exists w0, ReplayBuffer.init (St:=St) (Act:=Act) buffer_size seed i = Ok w0
     /\ forall cs, let w := snd (ReplayBuffer.run cs w0) in
          fst (ReplayBuffer.size w) = Ok (deque_len (ReplayBuffer.buffer (self w)))
          /\ deque_len (ReplayBuffer.buffer (self w)) <= buffer_size)
  /\ (exists w0, PrioritizedReplayBuffer.init (St:=St) (Act:=Act) buffer_size seed i = Ok w0
     /\ (forall cs, let w := snd (PrioritizedReplayBuffer.run cs w0) in
           deque_len (PrioritizedReplayBuffer.buffer_pos (self w)) <= buffer_size
           /\ deque_len (PrioritizedReplayBuffer.buffer_neg (self w)) <= buffer_size
           /\ exists n, fst (PrioritizedReplayBuffer.size w) = Ok n /\ n <= 2 * buffer_size)
     /\ exists cs, fst (PrioritizedReplayBuffer.size (snd (PrioritizedReplayBuffer.run cs w0)))
                   = Ok (2 * buffer_size))
  /\ (exists w0, PrioritizedReplayBuffer2.init (St:=St) (Act:=Act) buffer_size seed i = Ok w0
     /\ (forall cs, let w := snd (PrioritizedReplayBuffer2.run cs w0) in
           deque_len (PrioritizedReplayBuffer2.buffer_pos (self w)) <= buffer_size
           /\ deque_len (PrioritizedReplayBuffer2.buffer_neg (self w)) <= buffer_size
           /\ exists n, fst (PrioritizedReplayBuffer2.size w) = Ok n /\ n <= 2 * buffer_size)
     /\ exists cs, fst (PrioritizedReplayBuffer2.size (snd (PrioritizedReplayBuffer2.run cs w0)))
                   = Ok (2 * buffer_size)).
Proof.
  intros Hpos. split; [|split].
  - destruct (uniform_init_inv (St:=St) (Act:=Act) buffer_size seed i) as (w0 & Hinit & Hinv & _).
    exists w0. split; [exact Hinit|]. intros cs w.
    destruct (uniform_run_inv buffer_size cs w0 Hinv) as (_ & Hc & _ & Hb). fold w in Hc, Hb.
    unfold ReplayBuffer.size, mbind, M_bind, get_self, mret, M_ret. simpl.
    rewrite Hc. split; [done|]. rewrite <- Hc. apply Hb. lia.
  - destruct (stratified_init_inv (St:=St) (Act:=Act) buffer_size seed i ltac:(lia))
      as (w0 & Hinit & Hinv & Hp0 & Hn0).
    exists w0. split; [exact Hinit|]. split.
    + intros cs w.
      destruct (stratified_run_inv buffer_size cs w0 ltac:(lia) Hinv) as (_ & _ & _ & Hp & Hn).
      fold w in Hp, Hn. split; [done|]. split; [done|].
      eexists. split; [reflexivity|]. lia.
    + exists (replicate (Z.to_nat buffer_size) (PrioritizedReplayBuffer.Add s a 1%float false s)
              ++ replicate (Z.to_nat buffer_size) (PrioritizedReplayBuffer.Add s a 0%float false s)).
      rewrite stratified_run_app.
      destruct (stratified_fill buffer_size s a 1%float false s (Z.to_nat buffer_size) w0 Hinv)
        as [Hinv1 Hf1].
      change (PrimFloat.leb 1 0) with false in Hf1. destruct Hf1 as [Hl1 He1].
      set (w1 := snd (PrioritizedReplayBuffer.run _ w0)) in *.
      destruct (stratified_fill buffer_size s a 0%float false s (Z.to_nat buffer_size) w1 Hinv1)
        as [Hinv2 Hf2].
      change (PrimFloat.leb 0 0) with true in Hf2. destruct Hf2 as [Hl2 He2].
      set (w2 := snd (PrioritizedReplayBuffer.run _ w1)) in *.
      unfold PrioritizedReplayBuffer.size, mbind, M_bind, get_self, mret, M_ret. simpl.
      f_equal. rewrite Hl2, He2, Hl1, He1. unfold deque_len. rewrite Hp0, Hn0. simpl. lia.
  - destruct (weighted_init_inv (St:=St) (Act:=Act) buffer_size seed i ltac:(lia))
      as (w0 & Hinit & Hinv & Hp0 & Hn0).
    exists w0. split; [exact Hinit|]. split.
    + intros cs w.
      destruct (weighted_run_inv buffer_size cs w0 ltac:(lia) Hinv) as (_ & _ & _ & Hp & Hn).
      fold w in Hp, Hn. split; [done|]. split; [done|].
      eexists. split; [reflexivity|]. lia.
    + exists (replicate (Z.to_nat buffer_size) (PrioritizedReplayBuffer2.Add s a 1%float false s)
              ++ replicate (Z.to_nat buffer_size) (PrioritizedReplayBuffer2.Add s a 0%float false s)).
      rewrite weighted_run_app.
      destruct (weighted_fill buffer_size s a 1%float false s (Z.to_nat buffer_size) w0 Hinv)
        as [Hinv1 Hf1].
      change (PrimFloat.leb 1 0.5) with false in Hf1. destruct Hf1 as [Hl1 He1].
      set (w1 := snd (PrioritizedReplayBuffer2.run _ w0)) in *.
      destruct (weighted_fill buffer_size s a 0%float false s (Z.to_nat buffer_size) w1 Hinv1)
        as [Hinv2 Hf2].
      change (PrimFloat.leb 0 0.5) with true in Hf2. destruct Hf2 as [Hl2 He2].
      set (w2 := snd (PrioritizedReplayBuffer2.run _ w1)) in *.
      unfold PrioritizedReplayBuffer2.size, mbind, M_bind, get_self, mret, M_ret. simpl.
      f_equal. rewrite Hl2, He2, Hl1, He1. unfold deque_len. rewrite Hp0, Hn0. simpl. lia.
Qed.

(** The theorem at work on capacity 3. *)
Lemma capacity_invariant_witness :
  0 < 3
  /\ exists w0 : World (ReplayBuffer.t Z Z),
       ReplayBuffer.init (H:=Example.libraries) 3 123 Example.fresh = Ok w0
       /\ forall cs, deque_len (ReplayBuffer.buffer (self (snd (ReplayBuffer.run cs w0)))) <= 3.
Proof.
  split; [lia|].
  destruct (capacity_invariant (H:=Example.libraries) (St:=Z) (Act:=Z)
              3 123 Example.fresh 0 0 ltac:(lia))
    as [(w0 & Hinit & Hbound) _].
  exists w0. split; [exact Hinit|]. intros cs. apply Hbound.
Defined.

(** C9. After [capacity + 1] adds to a fresh [ReplayBuffer] of positive
    capacity, every add has succeeded and the buffer holds exactly the
    [capacity] transitions added last, in the order they were added; the one
    added first is gone. *)
Theorem uniform_fifo_eviction `{Libraries} {St Act : Type}
    (capacity seed : Z) (i : Interp)
    (first : Transition St Act) (rest : list (Transition St Act)) :
  0 < capacity -> Z.of_nat (length rest) = capacity ->
  exists w0, ReplayBuffer.init capacity seed i = Ok w0
    /\ let r := ReplayBuffer.run (ReplayBuffer.add_transition <$> first :: rest) w0 in
       Forall (fun v => v = Ok VNone) (fst r)
       /\ items (ReplayBuffer.buffer (self (snd r))) = rest
       /\ fst (ReplayBuffer.size (snd r)) = Ok capacity
       /\ (first ∉ rest -> first ∉ items (ReplayBuffer.buffer (self (snd r)))).
Proof.
  intros Hpos Hlen.
  destruct (uniform_init_inv (St:=St) (Act:=Act) capacity seed i) as (w0 & Hinit & Hinv & Hempty).
  exists w0. split; [exact Hinit|]. intros r.
  destruct (uniform_adds_items capacity (first :: rest) w0 Hpos Hinv) as (Hok & Hitems & Hinv').
  cbv zeta in Hok, Hitems. fold r in Hok, Hitems, Hinv'.
  rewrite Hempty in Hitems. simpl in Hitems.
  replace (Datatypes.S (length rest) - Z.to_nat capacity)%nat with 1%nat in Hitems by lia.
  simpl in Hitems. rewrite drop_0 in Hitems.
  split.
  { rewrite Hok. apply Forall_replicate. reflexivity. }
  split; [exact Hitems|]. split.
  { destruct Hinv' as (_ & Hc & _). unfold ReplayBuffer.size, mbind, M_bind, get_self, mret, M_ret.
    simpl. rewrite Hc. unfold deque_len. rewrite Hitems. by rewrite Hlen. }
  rewrite Hitems. done.
Qed.

(** The theorem at work: three adds to a buffer of capacity 2. *)
Lemma uniform_fifo_eviction_witness :
  0 < 2
  /\ Z.of_nat (length [Example.tr 2 0%float; Example.tr 3 1%float]) = 2
  /\ exists w0, ReplayBuffer.init (H:=Example.libraries) 2 123 Example.fresh = Ok w0
       /\ items (ReplayBuffer.buffer (self (snd (ReplayBuffer.run
                   (ReplayBuffer.add_transition
                      <$> Example.tr 1 1%float :: [Example.tr 2 0%float; Example.tr 3 1%float])
                   w0))))
          = [Example.tr 2 0%float; Example.tr 3 1%float].
Proof.
  split; [lia|]. split; [reflexivity|].
  destruct (uniform_fifo_eviction (H:=Example.libraries) 2 123 Example.fresh
              (Example.tr 1 1%float) [Example.tr 2 0%float; Example.tr 3 1%float]
              ltac:(lia) eq_refl)
    as (w0 & Hinit & _ & Hitems & _).
  exists w0. split; [exact Hinit|exact Hitems].
Defined.

(** C10. [sample_batch] of each of the three buffers leaves the object as
    it was, whatever the arguments and whether or not the call raises: the
    deques, their order and what [size()] returns are the same before and
    after the call.  Only the generators of the interpreter advance. *)
Theorem sample_batch_leaves_buffer_unchanged `{Libraries} {St Act : Type} :
  (forall (w : World (ReplayBuffer.t St Act)) batch_size,
     let w' := snd (ReplayBuffer.sample_batch batch_size w) in
     self w' = self w /\ fst (ReplayBuffer.size w') = fst (ReplayBuffer.size w))
  /\ (forall (w : World (PrioritizedReplayBuffer.t St Act)) batch_size p_ratio,
     let w' := snd (PrioritizedReplayBuffer.sample_batch batch_size p_ratio w) in
     self w' = self w
     /\ fst (PrioritizedReplayBuffer.size w') = fst (PrioritizedReplayBuffer.size w))
  /\ (forall (w : World (PrioritizedReplayBuffer2.t St Act)) batch_size p_ratio,
     let w' := snd (PrioritizedReplayBuffer2.sample_batch batch_size p_ratio w) in
     self w' = self w
     /\ fst (PrioritizedReplayBuffer2.size w') = fst (PrioritizedReplayBuffer2.size w)).
Proof.
  split; [|split]; intros w batch_size; [|intros p_ratio..]; intros w'.
  - pose proof (uniform_sample_batch_frame batch_size w) as Hf. fold w' in Hf.
    split; [exact Hf|]. rewrite !uniform_size_eq. cbn [fst]. by rewrite Hf.
  - pose proof (stratified_sample_batch_frame batch_size p_ratio w) as Hf. fold w' in Hf.
    split; [exact Hf|]. rewrite !stratified_size_eq. cbn [fst]. by rewrite Hf.
  - pose proof (weighted_sample_batch_frame batch_size p_ratio w) as Hf. fold w' in Hf.
    split; [exact Hf|]. rewrite !weighted_size_eq. cbn [fst]. by rewrite Hf.
Qed.

(** * Further properties *)


(** X2. [clear] of the two stratified buffers succeeds on every buffer and
    empties both deques: [size()] is 0 afterwards, and the capacity and the
    generators are as before. *)
Theorem stratified_clear_empties `{Libraries} {St Act : Type} :
  (forall w : World (PrioritizedReplayBuffer.t St Act),
     let r := PrioritizedReplayBuffer.clear w in
     fst r = Ok tt
     /\ items (PrioritizedReplayBuffer.buffer_pos (self (snd r))) = []
     /\ items (PrioritizedReplayBuffer.buffer_neg (self (snd r))) = []
     /\ fst (PrioritizedReplayBuffer.size (snd r)) = Ok 0
     /\ PrioritizedReplayBuffer.buffer_size (self (snd r))
        = PrioritizedReplayBuffer.buffer_size (self w)
     /\ interp (snd r) = interp w)
  /\ (forall w : World (PrioritizedReplayBuffer2.t St Act),
     let r := PrioritizedReplayBuffer2.clear w in
     fst r = Ok tt
     /\ items (PrioritizedReplayBuffer2.buffer_pos (self (snd r))) = []
     /\ items (PrioritizedReplayBuffer2.buffer_neg (self (snd r))) = []
     /\ fst (PrioritizedReplayBuffer2.size (snd r)) = Ok 0
     /\ PrioritizedReplayBuffer2.buffer_size (self (snd r))
        = PrioritizedReplayBuffer2.buffer_size (self w)
     /\ interp (snd r) = interp w).
Proof.
  split; intros w r; subst r.
  - rewrite stratified_clear_eq. repeat split.
  - rewrite weighted_clear_eq. repeat split.
Qed.

(** X3. After any number of adds to a fresh [ReplayBuffer] of positive
    capacity every add has succeeded, the deque holds the last [capacity]
    transitions added, in the order they were added, and [size()] returns
    the smaller of the number of adds and the capacity. *)
Theorem uniform_adds_contents `{Libraries} {St Act : Type}
    (capacity seed : Z) (i : Interp) (ts : list (Transition St Act)) :
  0 < capacity ->
  exists w0, ReplayBuffer.init capacity seed i = Ok w0
    /\ let r := ReplayBuffer.run (ReplayBuffer.add_transition <$> ts) w0 in
       fst r = replicate (length ts) (Ok VNone)
       /\ items (ReplayBuffer.buffer (self (snd r))) = keep_last capacity ts
       /\ fst (ReplayBuffer.size (snd r)) = Ok (Z.min (Z.of_nat (length ts)) capacity).
Proof.
  intros Hpos.
  destruct (uniform_init_inv (St:=St) (Act:=Act) capacity seed i) as (w0 & Hinit & Hinv & Hempty).
  exists w0. split; [exact Hinit|]. intros r.
  destruct (uniform_adds_items capacity ts w0 Hpos Hinv) as (Hok & Hitems & Hinv').
  cbv zeta in Hok, Hitems. fold r in Hok, Hitems, Hinv'.
  rewrite Hempty in Hitems. simpl in Hitems.
  split; [exact Hok|]. split; [exact Hitems|].
  rewrite uniform_size_eq. cbn [fst]. f_equal.
  destruct Hinv' as (_ & -> & _). unfold deque_len. rewrite Hitems, length_drop. lia.
Qed.

Lemma uniform_adds_contents_witness :
  0 < 2
  /\ exists w0, ReplayBuffer.init (H:=Example.libraries) 2 123 Example.fresh = Ok w0
       /\ fst (ReplayBuffer.size (snd (ReplayBuffer.run
                 (ReplayBuffer.add_transition
                    <$> [Example.tr 1 1%float; Example.tr 2 0%float; Example.tr 3 1%float])
                 w0))) = Ok 2.
Proof.
  split; [lia|].
  destruct (uniform_adds_contents (H:=Example.libraries) 2 123 Example.fresh
              [Example.tr 1 1%float; Example.tr 2 0%float; Example.tr 3 1%float] ltac:(lia))
    as (w0 & Hinit & _ & _ & Hsize).
  exists w0. split; [exact Hinit|exact Hsize].
Defined.

(** X4. Whatever is called on a stratified buffer, its partitions stay
    sorted by reward: every transition in [buffer_neg] satisfies the test of
    [add] ([r <= 0], and [r <= 0.5] for [PrioritizedReplayBuffer2]) and no
    transition in [buffer_pos] does. *)
Theorem stratified_partitions_sorted `{Libraries} {St Act : Type}
    (buffer_size seed : Z) (i : Interp) :
  (forall cs : list (PrioritizedReplayBuffer.call St Act),
     match PrioritizedReplayBuffer.init buffer_size seed i with
     | Ok w0 =>
         let o := self (snd (PrioritizedReplayBuffer.run cs w0)) in
         Forall (fun x => nonpositive x = false) (items (PrioritizedReplayBuffer.buffer_pos o))
         /\ Forall (fun x => nonpositive x = true) (items (PrioritizedReplayBuffer.buffer_neg o))
     | Raise _ => buffer_size < 0
     end)
  /\ (forall cs : list (PrioritizedReplayBuffer2.call St Act),
     match PrioritizedReplayBuffer2.init buffer_size seed i with
     | Ok w0 =>
         let o := self (snd (PrioritizedReplayBuffer2.run cs w0)) in
         Forall (fun x => at_most_half x = false) (items (PrioritizedReplayBuffer2.buffer_pos o))
         /\ Forall (fun x => at_most_half x = true) (items (PrioritizedReplayBuffer2.buffer_neg o))
     | Raise _ => buffer_size < 0
     end).
Proof.
  split; intros cs.
  - destruct (Z.lt_ge_cases buffer_size 0) as [Hneg|Hnn].
    { unfold PrioritizedReplayBuffer.init, deque_new.
      destruct (Z.ltb_spec buffer_size 0); [done|lia]. }
    destruct (stratified_init_inv (St:=St) (Act:=Act) buffer_size seed i Hnn)
      as (w0 & -> & _ & Hp0 & Hn0).
    apply stratified_run_sorted; [rewrite Hp0|rewrite Hn0]; constructor.
  - destruct (Z.lt_ge_cases buffer_size 0) as [Hneg|Hnn].
    { unfold PrioritizedReplayBuffer2.init, deque_new.
      destruct (Z.ltb_spec buffer_size 0); [done|lia]. }
    destruct (weighted_init_inv (St:=St) (Act:=Act) buffer_size seed i Hnn)
      as (w0 & -> & _ & Hp0 & Hn0).
    apply weighted_run_sorted; [rewrite Hp0|rewrite Hn0]; constructor.
Qed.

(** X5. After any adds to a fresh stratified buffer of capacity
    [buffer_size >= 0] every add has succeeded, [buffer_neg] holds the last
    [buffer_size] of the added transitions that pass the test of [add], in
    the order they were added, and [buffer_pos] the last [buffer_size] of
    the others: each partition evicts on its own. *)
Theorem stratified_adds_contents `{Libraries} {St Act : Type}
    (buffer_size seed : Z) (i : Interp) (ts : list (Transition St Act)) :
  0 <= buffer_size ->
  (exists w0, PrioritizedReplayBuffer.init buffer_size seed i = Ok w0
     /\ let r := PrioritizedReplayBuffer.run (stratified_add_call <$> ts) w0 in
        fst r = replicate (length ts) (Ok VNone)
        /\ items (PrioritizedReplayBuffer.buffer_pos (self (snd r)))
           = keep_last buffer_size (List.filter (fun x => negb (nonpositive x)) ts)
        /\ items (PrioritizedReplayBuffer.buffer_neg (self (snd r)))
           = keep_last buffer_size (List.filter nonpositive ts))
  /\ (exists w0, PrioritizedReplayBuffer2.init buffer_size seed i = Ok w0
     /\ let r := PrioritizedReplayBuffer2.run (weighted_add_call <$> ts) w0 in
        fst r = replicate (length ts) (Ok VNone)
        /\ items (PrioritizedReplayBuffer2.buffer_pos (self (snd r)))
           = keep_last buffer_size (List.filter (fun x => negb (at_most_half x)) ts)
        /\ items (PrioritizedReplayBuffer2.buffer_neg (self (snd r)))
           = keep_last buffer_size (List.filter at_most_half ts)).
Proof.
  intros Hnn. split.
  - destruct (stratified_init_inv (St:=St) (Act:=Act) buffer_size seed i Hnn)
      as (w0 & Hinit & Hinv & Hp0 & Hn0).
    exists w0. split; [exact Hinit|]. intros r.
    destruct (stratified_adds_items buffer_size ts w0 Hinv) as (Hok & Hp & Hn).
    cbv zeta in Hok, Hp, Hn. fold r in Hok, Hp, Hn.
    rewrite Hp0 in Hp. rewrite Hn0 in Hn. done.
  - destruct (weighted_init_inv (St:=St) (Act:=Act) buffer_size seed i Hnn)
      as (w0 & Hinit & Hinv & Hp0 & Hn0).
    exists w0. split; [exact Hinit|]. intros r.
    destruct (weighted_adds_items buffer_size ts w0 Hinv) as (Hok & Hp & Hn).
    cbv zeta in Hok, Hp, Hn. fold r in Hok, Hp, Hn.
    rewrite Hp0 in Hp. rewrite Hn0 in Hn. done.
Qed.

Lemma stratified_adds_contents_witness :
  0 <= 1
  /\ exists w0, PrioritizedReplayBuffer.init (H:=Example.libraries) 1 123 Example.fresh = Ok w0
       /\ items (PrioritizedReplayBuffer.buffer_pos (self (snd (PrioritizedReplayBuffer.run
                   (stratified_add_call
                      <$> [Example.tr 1 1%float; Example.tr 2 0%float; Example.tr 3 2%float])
                   w0))))
          = [Example.tr 3 2%float].
Proof.
  split; [lia|].
  destruct (stratified_adds_contents (H:=Example.libraries) 1 123 Example.fresh
              [Example.tr 1 1%float; Example.tr 2 0%float; Example.tr 3 2%float] ltac:(lia))
    as [(w0 & Hinit & _ & Hpos & _) _].
  exists w0. split; [exact Hinit|exact Hpos].
Defined.

(** X6. A negative [batch_size] makes [ReplayBuffer.sample_batch] raise
    [ValueError], from [random.sample]; nothing is drawn and nothing
    changes. *)
Theorem uniform_sample_batch_negative_size `{Libraries} {St Act : Type}
    (w : World (ReplayBuffer.t St Act)) (batch_size : Z) :
  ReplayBuffer.reachable w -> batch_size < 0 ->
  ReplayBuffer.sample_batch batch_size w = (Raise ValueError, w).
Proof.
  intros Hreach Hneg.
  destruct (uniform_reachable_inv w Hreach) as (size0 & _ & Hcount & _ & _).
  rewrite uniform_sample_batch_eq. cbv zeta.
  unfold deque_len in Hcount.
  destruct (Z.ltb_spec (ReplayBuffer.count (self w)) batch_size); [lia|].
  rewrite sample_on_out_of_range by lia.
  destruct w as [o [py np]]. reflexivity.
Qed.

Lemma uniform_sample_batch_negative_size_witness :
  ReplayBuffer.reachable (H:=Example.libraries) Example.uniform_world /\ -1 < 0
  /\ fst (ReplayBuffer.sample_batch (-1) Example.uniform_world) = Raise ValueError.
Proof.
  assert (ReplayBuffer.reachable (H:=Example.libraries) Example.uniform_world) as Hreach.
  { exists 2, 123, Example.fresh, Example.uniform_calls, Example.uniform_start.
    split; reflexivity. }
  split; [exact Hreach|]. split; [lia|].
  rewrite (uniform_sample_batch_negative_size (H:=Example.libraries) _ (-1) Hreach ltac:(lia)).
  reflexivity.
Defined.

(** X7. When the stratified [sample_batch] returns: with
    [target = int(batch_size * p_ratio)], the call returns a batch if
    [target >= 0] and the clamped positive count [min(target, len(buffer_pos))]
    is at most [batch_size]; otherwise [random.sample] is handed a negative
    size and the call raises [ValueError]. *)
Theorem stratified_sample_batch_outcome `{Libraries} {St Act : Type}
    (w : World (PrioritizedReplayBuffer.t St Act))
    (batch_size : Z) (p_ratio product : float) (target : Z) :
  int_mul_float batch_size p_ratio = Ok product ->
  int_of_float product = Ok target ->
  let n_pos := Z.min target (deque_len (PrioritizedReplayBuffer.buffer_pos (self w))) in
  (0 <= target /\ n_pos <= batch_size ->
     exists b, fst (PrioritizedReplayBuffer.sample_batch batch_size p_ratio w) = Ok b)
  /\ (target < 0 \/ batch_size < n_pos ->
     fst (PrioritizedReplayBuffer.sample_batch batch_size p_ratio w) = Raise ValueError).
Proof.
  intros Hprod Htarget n_pos.
  destruct w as [o i]. unfold deque_len in n_pos. simpl in n_pos.
  set (pos := items (PrioritizedReplayBuffer.buffer_pos o)) in *.
  set (neg := items (PrioritizedReplayBuffer.buffer_neg o)).
  assert (fst (PrioritizedReplayBuffer.sample_batch batch_size p_ratio (mkWorld o i))
          = match sample_on pos n_pos (py_random i) with
            | (Ok pos_batch, g) =>
                match sample_on neg (Z.min (batch_size - n_pos) (Z.of_nat (length neg))) g with
                | (Ok neg_batch, _) => Ok (columns (pos_batch ++ neg_batch))
                | (Raise e, _) => Raise e
                end
            | (Raise e, _) => Raise e
            end) as ->.
  { unfold PrioritizedReplayBuffer.sample_batch, mbind, M_bind, lift, get_self,
      random_sample, with_py_random, deque_len. simpl.
    rewrite Hprod, Htarget. fold pos neg.
    replace (if target >? Z.of_nat (length pos) then Z.of_nat (length pos) else target)
      with n_pos by (unfold n_pos; destruct (Z.gtb_spec target (Z.of_nat (length pos))); lia).
    replace (if batch_size - n_pos >? Z.of_nat (length neg)
             then Z.of_nat (length neg) else batch_size - n_pos)
      with (Z.min (batch_size - n_pos) (Z.of_nat (length neg)))
      by (destruct (Z.gtb_spec (batch_size - n_pos) (Z.of_nat (length neg))); lia).
    destruct (sample_on pos n_pos (py_random i)) as [[pos_batch|e] g]; [|done]. simpl.
    destruct (sample_on neg _ g) as [[neg_batch|e] g']; done. }
  split.
  - intros [H0 Hle].
    destruct (sample_on_positions pos n_pos (py_random i))
      as (_ & pos_batch & _ & -> & _); [lia|].
    destruct (sample_on_positions neg (Z.min (batch_size - n_pos) (Z.of_nat (length neg)))
                (mkRng (tape (py_random i)) (cursor (py_random i) + Z.to_nat n_pos)))
      as (_ & neg_batch & _ & -> & _); [lia|].
    eauto.
  - intros [Hneg|Hbig].
    + rewrite sample_on_out_of_range by lia. done.
    + destruct (Z.lt_ge_cases target 0) as [Hneg|H0].
      { rewrite sample_on_out_of_range by lia. done. }
      destruct (sample_on_positions pos n_pos (py_random i))
        as (_ & pos_batch & _ & -> & _); [lia|].
      rewrite sample_on_out_of_range by lia. done.
Qed.

Lemma stratified_sample_batch_outcome_witness :
  int_mul_float 4 2%float = Ok 8%float
  /\ int_of_float 8%float = Ok 8
  /\ fst (PrioritizedReplayBuffer.sample_batch 4 2%float Example.stratified_world)
     = Raise ValueError.
Proof.
  assert (int_mul_float 4 2%float = Ok 8%float) as Hprod by reflexivity.
  assert (int_of_float 8%float = Ok 8) as Htarget by reflexivity.
  split; [exact Hprod|]. split; [exact Htarget|].
  apply (stratified_sample_batch_outcome (H:=Example.libraries) Example.stratified_world
           4 2%float 8%float 8 Hprod Htarget).
  right. vm_compute. reflexivity.
Defined.

Section WeightedSampling.
Context `{Libraries} {St Act : Type}.

(** [sample_batch] of [PrioritizedReplayBuffer2] when no positive sample is
    due: one unweighted [np.random.choice] on the negative deque. *)
Lemma weighted_sample_batch_eq_no_positive
    (w : World (PrioritizedReplayBuffer2.t St Act))
    (batch_size : Z) (p_ratio product : float) (target : Z) :
  int_mul_float batch_size p_ratio = Ok product ->
  int_of_float product = Ok target ->
  Z.min target (deque_len (PrioritizedReplayBuffer2.buffer_pos (self w))) = 0 ->
  let neg := items (PrioritizedReplayBuffer2.buffer_neg (self w)) in
  fst (PrioritizedReplayBuffer2.sample_batch batch_size p_ratio w)
  = match choice_on (Z.of_nat (length neg)) (Z.min batch_size (Z.of_nat (length neg))) None
            (np_random (interp w)) with
    | (Ok idx, _) =>
        match take_indices neg idx with
        | Ok batch => Ok (columns batch)
        | Raise e => Raise e
        end
    | (Raise e, _) => Raise e
    end.
Proof.
  intros Hprod Htarget Hzero neg. destruct w as [o i]. subst neg.
  unfold deque_len in Hzero. simpl in Hzero.
  unfold PrioritizedReplayBuffer2.sample_batch, mbind, M_bind, lift, get_self,
    np_random_choice, with_np_random, deque_len. simpl.
  rewrite Hprod, Htarget.
  replace (if target >? Z.of_nat (length (items (PrioritizedReplayBuffer2.buffer_pos o)))
           then Z.of_nat (length (items (PrioritizedReplayBuffer2.buffer_pos o)))
           else target) with 0
    by (destruct (Z.gtb_spec target
                    (Z.of_nat (length (items (PrioritizedReplayBuffer2.buffer_pos o))))); lia).
  simpl. rewrite Z.sub_0_r.
  replace (if batch_size >? Z.of_nat (length (items (PrioritizedReplayBuffer2.buffer_neg o)))
           then Z.of_nat (length (items (PrioritizedReplayBuffer2.buffer_neg o)))
           else batch_size)
    with (Z.min batch_size (Z.of_nat (length (items (PrioritizedReplayBuffer2.buffer_neg o)))))
    by (destruct (Z.gtb_spec batch_size
                    (Z.of_nat (length (items (PrioritizedReplayBuffer2.buffer_neg o))))); lia).
  destruct (choice_on _ _ None (np_random i)) as [[idx|e] g]; [|done]. simpl.
  destruct (take_indices _ idx); done.
Qed.
End WeightedSampling.



(** X9. On an empty negative deque with no positive sample due,
    [PrioritizedReplayBuffer2.sample_batch] with [batch_size >= 0] calls
    [np.random.choice(0, 0, False)]: it returns five empty sequences on a
    numpy release that accepts an empty population and raises [ValueError]
    on one that does not. *)
Theorem weighted_sample_batch_empty_negative `{Libraries} {St Act : Type}
    (w : World (PrioritizedReplayBuffer2.t St Act))
    (batch_size : Z) (p_ratio product : float) (target : Z) :
  int_mul_float batch_size p_ratio = Ok product ->
  int_of_float product = Ok target ->
  Z.min target (deque_len (PrioritizedReplayBuffer2.buffer_pos (self w))) = 0 ->
  0 <= batch_size ->
  items (PrioritizedReplayBuffer2.buffer_neg (self w)) = [] ->
  fst (PrioritizedReplayBuffer2.sample_batch batch_size p_ratio w)
  = if choice_empty_ok then Ok (mkBatch [] [] [] [] []) else Raise ValueError.
Proof.
  intros Hprod Htarget Hzero Hnn Hempty.
  rewrite (weighted_sample_batch_eq_no_positive w batch_size p_ratio product target)
    by done. rewrite Hempty. simpl length.
  replace (Z.min batch_size (Z.of_nat 0)) with 0 by lia.
  unfold choice_on. simpl. destruct choice_empty_ok; reflexivity.
Qed.

Lemma weighted_sample_batch_empty_negative_witness :
  int_mul_float 5 0.25%float = Ok 1.25%float
  /\ int_of_float 1.25%float = Ok 1
  /\ 0 <= 5
  /\ fst (PrioritizedReplayBuffer2.sample_batch (H:=Example.libraries) 5 0.25%float
            weighted_empty_example) = Raise ValueError.
Proof.
  assert (int_mul_float 5 0.25%float = Ok 1.25%float) as Hprod by reflexivity.
  assert (int_of_float 1.25%float = Ok 1) as Htarget by reflexivity.
  split; [exact Hprod|]. split; [exact Htarget|]. split; [lia|].
  exact (weighted_sample_batch_empty_negative (H:=Example.libraries) weighted_empty_example
           5 0.25%float 1.25%float 1 Hprod Htarget eq_refl ltac:(lia) eq_refl).
Defined.

(** X10. On a dictionary that assigns the indices 1..len to distinct words
    (as the empty one and every one [getIndex] produces does), [getIndex]
    returns a positive index for the word and keeps every earlier
    assignment; a second call returns the same index and changes nothing;
    no other word has that index; a new word gets [len(indexer) + 1]. *)
Theorem getIndex_spec (word : string) (indexer : gmap string Z) :
  indexer_ok indexer ->
  exists i indexer',
    getIndex word indexer = (Some i, indexer')
    /\ 1 <= i
    /\ indexer ⊆ indexer'
    /\ indexer_ok indexer'
    /\ getIndex word indexer' = (Some i, indexer')
    /\ (forall other, indexer' !! other = Some i -> other = word)
    /\ (indexer !! word = None -> i = Z.of_nat (size indexer) + 1).
Proof.
  intros Hok.
  destruct (getIndex_step word indexer Hok) as (i & ix & Hget & Hi & Hsub & Hok' & _ & Hnew).
  exists i, ix. split; [exact Hget|]. split; [apply (proj1 Hok' word i Hi)|].
  split; [exact Hsub|]. split; [exact Hok'|]. split; [|split].
  - destruct (getIndex_step word ix Hok') as (i' & ix' & Hget' & _ & _ & _ & Hsame & _).
    destruct (Hsame i Hi) as [-> ->]. exact Hget'.
  - intros other Ho. exact (proj2 Hok' other word i Ho Hi).
  - intros Hnone. apply Hnew. exact Hnone.
Qed.

Lemma getIndex_spec_witness :
  indexer_ok ∅
  /\ exists indexer', getIndex "north" ∅ = (Some 1, indexer').
Proof.
  split; [exact indexer_ok_empty|].
  destruct (getIndex_spec "north" ∅ indexer_ok_empty) as (i & ix & Hget & _ & _ & _ & _ & _ & Hnew).
  exists ix. rewrite (Hnew (lookup_empty _)) in Hget. exact Hget.
Defined.

(** X11. [sent2seq] on a well-formed dictionary returns the indices of the
    sentence's words, in order, followed by zeros up to [length]; a sentence
    of more than [length] words is not cut, so the result has
    [max(length, number of words)] entries.  Every index is positive, two
    positions carry the same index exactly when they carry the same word,
    and earlier assignments are kept. *)
Theorem sent2seq_spec (text_to_word_sequence : string -> list string)
    (sentence : string) (length : Z) (indexer : gmap string Z) :
  indexer_ok indexer ->
  let words := text_to_word_sequence sentence in
  exists seq indexer',
    sent2seq text_to_word_sequence sentence length indexer
      = (Some (seq ++ replicate (Z.to_nat (length - Z.of_nat (List.length words))) 0), indexer')
    /\ Forall2 (fun word i => indexer' !! word = Some i /\ 1 <= i) words seq
    /\ Z.of_nat (List.length (seq ++ replicate (Z.to_nat (length - Z.of_nat (List.length words))) 0))
       = Z.max length (Z.of_nat (List.length words))
    /\ (forall j k wj wk ij ik,
          words !! j = Some wj -> words !! k = Some wk ->
          seq !! j = Some ij -> seq !! k = Some ik ->
          (ij = ik <-> wj = wk))
    /\ indexer ⊆ indexer'
    /\ indexer_ok indexer'.
Proof.
  intros Hok words.
  destruct (map_getIndex_spec words indexer Hok) as (seq & ix & Hmap & Hsub & Hok' & Hall).
  pose proof (Forall2_length _ _ _ Hall) as Hlen.
  exists seq, ix. split.
  { unfold sent2seq. fold words. rewrite Hmap. simpl. by rewrite Hlen. }
  split.
  { eapply Forall2_impl; [exact Hall|]. intros w i Hi. split; [done|].
    apply (proj1 Hok' w i Hi). }
  split.
  { rewrite length_app, length_replicate. lia. }
  split; [|done].
  intros j k wj wk ij ik Hj Hk Hij Hik.
  pose proof (Forall2_lookup_lr _ _ _ _ _ _ Hall Hj Hij) as Hwj.
  pose proof (Forall2_lookup_lr _ _ _ _ _ _ Hall Hk Hik) as Hwk.
  simpl in Hwj, Hwk. split.
  - intros ->. exact (proj2 Hok' wj wk ik Hwj Hwk).
  - intros ->. congruence.
Qed.

Lemma sent2seq_spec_witness :
  indexer_ok ∅
  /\ exists seq indexer',
       sent2seq (fun _ => ["go"; "north"; "go"]) "go north go" 5 ∅
       = (Some (seq ++ [0; 0]), indexer')
       /\ Forall2 (fun word i => indexer' !! word = Some i /\ 1 <= i)
                  ["go"; "north"; "go"] seq.
Proof.
  split; [exact indexer_ok_empty|].
  destruct (sent2seq_spec (fun _ => ["go"; "north"; "go"]) "go north go" 5 ∅ indexer_ok_empty)
    as (seq & ix & Hs & Hall & _).
  exists seq, ix. split; [exact Hs|exact Hall].
Defined.

(** X12. Encoding is repeatable: once a sentence has been encoded, encoding
    it again, with any [length], looks every word up, returns the same
    indices and leaves the dictionary as it is. *)
Theorem sent2seq_again (text_to_word_sequence : string -> list string)
    (sentence : string) (length length' : Z) (indexer indexer' : gmap string Z)
    (out : list Z) :
  indexer_ok indexer ->
  sent2seq text_to_word_sequence sentence length indexer = (Some out, indexer') ->
  exists out',
    sent2seq text_to_word_sequence sentence length' indexer' = (Some out', indexer')
    /\ take (List.length (text_to_word_sequence sentence)) out'
       = take (List.length (text_to_word_sequence sentence)) out.
Proof.
  intros Hok Hfirst.
  destruct (map_getIndex_spec (text_to_word_sequence sentence) indexer Hok)
    as (seq & ix & Hmap & _ & _ & Hall).
  pose proof (Forall2_length _ _ _ Hall) as Hlen.
  unfold sent2seq in Hfirst. rewrite Hmap in Hfirst. simpl in Hfirst.
  injection Hfirst as <- <-.
  unfold sent2seq. rewrite (map_getIndex_known _ _ _ Hall). simpl.
  eexists. split; [reflexivity|].
  rewrite !take_app_length'; done.
Qed.

Lemma sent2seq_again_witness :
  indexer_ok ∅
  /\ (let r := sent2seq (fun _ => ["go"; "north"]) "go north" 3 ∅ in
      r = (Some [1; 2; 0], snd r)
      /\ exists out', sent2seq (fun _ => ["go"; "north"]) "go north" 4 (snd r)
                      = (Some out', snd r)).
Proof.
  split; [exact indexer_ok_empty|].
  assert (sent2seq (fun _ => ["go"; "north"]) "go north" 3 ∅
          = (Some [1; 2; 0], snd (sent2seq (fun _ => ["go"; "north"]) "go north" 3 ∅)))
    as Hfirst.
  { rewrite (surjective_pairing (sent2seq _ _ _ _)) at 1. f_equal. }
  split; [exact Hfirst|].
  destruct (sent2seq_again (fun _ => ["go"; "north"]) "go north" 3 4 ∅ _ [1; 2; 0]
              indexer_ok_empty Hfirst) as (out' & Hs & _).
  exists out'. exact Hs.
Defined.

(** X13. For [hist_size > 0], [initHist] returns a deque bounded by
    [hist_size] that holds exactly [hist_size] states of the length of
    [state], the most recent one being [state]: zero vectors before it when
    [null], copies of it otherwise. *)
Theorem initHist_shape (state : list Z) (hist_size : Z) (null : bool) :
  0 < hist_size ->
  exists hist,
    initHist state hist_size null = Ok hist
    /\ maxlen hist = Some hist_size
    /\ deque_len hist = hist_size
    /\ items hist
       = (if null then replicate (Z.to_nat hist_size - 1) (replicate (length state) 0) ++ [state]
          else replicate (Z.to_nat hist_size) state)
    /\ last (items hist) = Some state
    /\ Forall (fun s => length s = length state) (items hist).
Proof.
  intros Hpos.
  destruct (initHist_items state hist_size null Hpos) as (hist & Hinit & Hm & Hitems).
  exists hist. split; [done|]. split; [done|].
  destruct (Z.to_nat hist_size) as [|n] eqn:Hn; [lia|].
  replace (Datatypes.S n - 1)%nat with n in * by lia.
  split.
  { unfold deque_len. rewrite Hitems.
    destruct null; rewrite ?length_app, !length_replicate; simpl; lia. }
  split; [exact Hitems|]. rewrite Hitems. split.
  - destruct null; [apply last_snoc|].
    rewrite replicate_S_end. apply last_snoc.
  - destruct null.
    + apply Forall_app. split; [|by repeat constructor].
      apply Forall_replicate. by rewrite length_replicate.
    + by apply Forall_replicate.
Qed.

Lemma initHist_shape_witness :
  0 < 3
  /\ exists hist, initHist [4; 5] 3 true = Ok hist
       /\ items hist = [[0; 0]; [0; 0]; [4; 5]].
Proof.
  split; [lia|].
  destruct (initHist_shape [4; 5] 3 true ltac:(lia)) as (hist & Hinit & _ & _ & Hitems & _).
  exists hist. split; [exact Hinit|exact Hitems].
Defined.

(** X14. With [hist_size <= 0], [initHist] with [null] raises [IndexError]
    (there is no last cell to write [state] to); without [null] it returns an
    empty deque of bound 0 for [hist_size = 0] and raises [ValueError] for a
    negative [hist_size]. *)
Theorem initHist_without_room (state : list Z) (hist_size : Z) (null : bool) :
  hist_size <= 0 ->
  initHist state hist_size null
  = if null then Raise IndexError
    else if hist_size <? 0 then Raise ValueError
    else Ok (mkDeque [] (Some 0)).
Proof.
  intros Hle. unfold initHist.
  replace (Z.to_nat hist_size) with 0%nat by lia. simpl.
  destruct null; [reflexivity|].
  unfold deque_from, deque_new.
  destruct (Z.ltb_spec hist_size 0); [reflexivity|].
  simpl. replace hist_size with 0 by lia. reflexivity.
Qed.

Lemma initHist_without_room_witness :
  0 <= 0 /\ initHist [4; 5] 0 true = Raise IndexError.
Proof.
  split; [lia|]. exact (initHist_without_room [4; 5] 0 true ltac:(lia)).
Defined.

(** X15. A history is a sliding window: starting from [initHist] with
    [hist_size > 0] and adding states with [addHistoryState], the deque
    always holds exactly [hist_size] states, the last [hist_size] of the
    initial ones followed by the added ones, in order, and keeps its bound. *)
Theorem history_is_sliding_window (state : list Z) (hist_size : Z) (null : bool)
    (states : list (list Z)) :
  0 < hist_size ->
  exists hist,
    initHist state hist_size null = Ok hist
    /\ let hist' := foldl addHistoryState hist states in
       items hist' = keep_last hist_size (items hist ++ states)
       /\ deque_len hist' = hist_size
       /\ maxlen hist' = Some hist_size
       /\ last (items hist') = last (state :: states).
Proof.
  intros Hpos.
  destruct (initHist_items state hist_size null Hpos) as (hist & Hinit & Hm & Hitems0).
  assert (deque_len hist = hist_size /\ last (items hist) = Some state) as [Hlen Hlast].
  { unfold deque_len. rewrite Hitems0.
    destruct (Z.to_nat hist_size) as [|n] eqn:Hn; [lia|].
    replace (Datatypes.S n - 1)%nat with n by lia.
    destruct null; rewrite ?replicate_S_end, length_app, length_replicate, last_snoc;
      simpl; split; [lia|done|lia|done]. }
  exists hist. split; [exact Hinit|]. intros hist'.
  assert (forall d : deque (list Z), foldl addHistoryState d states = foldl deque_append d states)
    as Hfold.
  { clear. induction states as [|s states IH]; intros d; simpl; [done|].
    rewrite IH. unfold addHistoryState, deque_copy. by destruct d. }
  subst hist'. rewrite Hfold.
  destruct (deque_appends_bounded states hist hist_size Hm ltac:(lia)) as (Hm' & Hle' & Hitems).
  split; [exact Hitems|]. split; [|split; [exact Hm'|]].
  - unfold deque_len in *. rewrite Hitems.
    pose proof (keep_last_length hist_size (items hist ++ states)) as Hk.
    rewrite Hk, length_app. lia.
  - rewrite Hitems. unfold keep_last.
    rewrite last_drop by (rewrite length_app; unfold deque_len in Hlen; lia).
    destruct states as [|s states _] using rev_ind.
    + rewrite app_nil_r. exact Hlast.
    + rewrite app_assoc, last_snoc. rewrite app_comm_cons, last_snoc. done.
Qed.

Lemma history_is_sliding_window_witness :
  0 < 2
  /\ exists hist, initHist [1] 2 true = Ok hist
       /\ items (foldl addHistoryState hist [[2]; [3]]) = [[2]; [3]].
Proof.
  split; [lia|].
  destruct (history_is_sliding_window [1] 2 true [[2]; [3]] ltac:(lia))
    as (hist & Hinit & Hitems & _).
  exists hist. split; [exact Hinit|].
  rewrite Hitems. injection Hinit as <-. reflexivity.
Defined.
